(** * Surface-based voxel selection (mvpa2/misc/surfing/surf_voxel_selection.py)

    A shallow embedding of [VoxelSelector], [_RadiusOptimizer] and
    [voxel_selection], with proofs of the properties their specification
    states.

    Conventions of the embedding.
    - Python [int] is [Z]; loop indices produced by [xrange] are [nat].
    - Python [float] (and NumPy's [float32]) is a carrier [F] with the
      comparisons and the arithmetic the module uses, given by type classes.
      The functions are executable at IEEE binary64 ([PrimFloat]); general
      theorems that need comparison to behave as on finite floats take
      [FloatEqLaws] or [FloatOrdLaws]; the radius sequence is stated with
      the products as the carrier rounds them.
    - A [dict] is a [gmap]; iterating one visits [map_to_list], CPython
      leaving the order unspecified. No theorem depends on that order.
    - A raised exception is [Raise e]; the module rebinds no exception, so a
      [Raise] reaches the caller of the entry point.
    - [debug] output is not modelled; [warning] appends to a log. *)

From Stdlib Require Import ZArith Floats.
From stdpp Require Import gmap strings list sorting.

#[local] Open Scope Z_scope.

(** ** Python values and exceptions *)

Inductive exn : Type :=
  | TypeError (msg : string)
  | ValueError (msg : string)
  | KeyError (msg : string)
  | IndexError (msg : string)
  | AttributeError (msg : string)
  | ImportError (msg : string).

Inductive result (A : Type) : Type :=
  | Ok (a : A)
  | Raise (e : exn).
Arguments Ok {A} a.
Arguments Raise {A} e.

#[global] Instance result_ret : MRet result := λ A a, Ok a.
#[global] Instance result_bind : MBind result := λ A B f m,
  match m with
  | Ok a => f a
  | Raise e => Raise e
  end.

(** Calling a [str] object.  [s (args)] with [s] a string literal is a call
    expression, and a string is not callable. *)
Definition py_call_str {A Args : Type} (s : string) (args : Args) : result A :=
  Raise (TypeError "'str' object is not callable").

(** [l[0]] and [l[-1]] on a list or a NumPy array. *)
Definition py_first {A : Type} (l : list A) : result A :=
  match head l with
  | Some x => Ok x
  | None => Raise (IndexError "index out of range")
  end.

Definition py_last {A : Type} (l : list A) : result A :=
  match last l with
  | Some x => Ok x
  | None => Raise (IndexError "index out of range")
  end.

(** ** Numbers *)

(** [==], [<] and [<=] of floats. *)
Class FloatCmp (F : Type) : Type := {
  Feqb : F → F → bool;
  Fltb : F → F → bool;
  Fleb : F → F → bool
}.

(** The float arithmetic of [VoxelSelector.__init__], [_RadiusOptimizer] and
    [math.isinf]; [F_0_001] and [F_1_5] are the literals [.001] and [1.5],
    [Fpow_half x] is [x ** .5] on a non-negative [x]. *)
Class FloatArith (F : Type) : Type := {
  Fadd : F → F → F;
  Fmul : F → F → F;
  Fpow_half : F → F;
  F_of_int : Z → F;
  F_0_001 : F;
  F_1_5 : F;
  Fisinf : F → bool
}.

(** [np.asarray(xs, dtype=np.float32)] and [np.asarray(xs, dtype=np.int32)],
    element by element. *)
Class NumpyCast (F : Type) : Type := {
  as_float32 : F → F;
  as_int32 : Z → Z
}.

(** Comparison as it behaves on finite floats that are not negative zero:
    [==] decides equality, [<] is a strict total order, and the conversion
    to float32 is monotone. *)
Class FloatEqLaws (F : Type) `{FloatCmp F} : Prop := {
  Feqb_eq (x y : F) : Feqb x y = true ↔ x = y
}.

Class FloatOrdLaws (F : Type) `{FloatCmp F, NumpyCast F} : Prop := {
  FloatOrd_eq :: FloatEqLaws F;
  Fltb_irrefl (x : F) : Fltb x x = false;
  Fltb_trans (x y z : F) : Fltb x y = true → Fltb y z = true → Fltb x z = true;
  Fltb_total (x y : F) : Fltb x y = true ∨ x = y ∨ Fltb y x = true;
  as_float32_mono (x y : F) :
    Fltb (as_float32 y) (as_float32 x) = true → Fltb y x = true
}.

(** ** Voxel attributes *)

(** The dict with the keys [LINEAR_VOXEL_INDICES], [CENTER_DISTANCES] and
    [GREY_MATTER_POSITION], each bound to an array. *)
Record VoxProps (F : Type) : Type := mkVoxProps {
  linear_voxel_indices : list Z;
  center_distances : list F;
  grey_matter_position : list F
}.
Arguments mkVoxProps {F} _ _ _.
Arguments linear_voxel_indices {F} _.
Arguments center_distances {F} _.
Arguments grey_matter_position {F} _.

(** [for k in voxprops.keys(): voxprops[k] = voxprops[k][:cutpos]] *)
Definition slice_to {F : Type} (cutpos : nat) (voxprops : VoxProps F) : VoxProps F :=
  {| linear_voxel_indices := take cutpos (linear_voxel_indices voxprops);
     center_distances := take cutpos (center_distances voxprops);
     grey_matter_position := take cutpos (grey_matter_position voxprops) |}.

(** ** [VoxelSelector._select_approx] *)

Section select_approx.
Context {F : Type} `{FloatCmp F}.

(** The [for i in xrange(n)] loop, from index [i] on, [ds] being
    [allds[i:]]: the result is [(curchunk, chunkcount)] when the loop is
    left, by [break] or at the end of the range. *)
Fixpoint scan_chunks (count : Z) (ds : list F) (i : nat)
    (curchunk : list nat) (prevd : F) (chunkcount : nat) : list nat * nat :=
  match ds with
  | [] => (curchunk, chunkcount)
  | d :: ds' =>
      if (0 <? i)%nat && negb (Feqb prevd d) then
        if Z.of_nat i >=? count then (curchunk, chunkcount)
        else scan_chunks count ds' (S i) [i] d (S chunkcount)
      else scan_chunks count ds' (S i) (curchunk ++ [i]) d chunkcount
  end.

(** [delta = (count - firstpos) - (lastpos - count)] *)
Definition chunk_delta (count : Z) (firstpos lastpos : nat) : Z :=
  (count - Z.of_nat firstpos) - (Z.of_nat lastpos - count).

Definition chunk_cutpos (count : Z) (firstpos lastpos chunkcount : nat) : nat :=
  let delta := chunk_delta count firstpos lastpos in
  if delta >? 0 then (lastpos + 1)%nat
  else if delta <? 0 then firstpos
  else if (chunkcount mod 2 =? 0)%nat then firstpos else (lastpos + 1)%nat.

(** The values the function holds when it reaches the slicing. *)
Record chunk_scan : Type := mkChunkScan {
  cs_firstpos : nat;
  cs_lastpos : nat;
  cs_chunkcount : nat;
  cs_delta : Z;
  cs_cutpos : nat
}.

(** From [n = len(allds)] to [cutpos]; [None] is the early
    [return None]. *)
Definition select_scan (allds : list F) (count : Z) : result (option chunk_scan) :=
  let n := length allds in
  if (Z.of_nat n <? count) || (n =? 0)%nat then Ok None
  else
    prevd ← py_first allds;
    let '(curchunk, chunkcount) := scan_chunks count allds 0 [] prevd 1 in
    firstpos ← py_first curchunk;
    lastpos ← py_last curchunk;
    Ok (Some {| cs_firstpos := firstpos; cs_lastpos := lastpos;
                cs_chunkcount := chunkcount;
                cs_delta := chunk_delta count firstpos lastpos;
                cs_cutpos := chunk_cutpos count firstpos lastpos chunkcount |}).

(** [_select_approx(voxprops, count)].  The [KeyError] branch needs a dict
    without [CENTER_DISTANCES], which [VoxProps] excludes. *)
Definition _select_approx (voxprops : VoxProps F) (count : option Z)
    : result (option (VoxProps F)) :=
  match count with
  | None => Ok (Some voxprops)
  | Some count =>
      sc ← select_scan (center_distances voxprops) count;
      match sc with
      | None => Ok None
      | Some sc => Ok (Some (slice_to (cs_cutpos sc) voxprops))
      end
  end.
End select_approx.

(** ** IEEE binary64, for running the functions *)

Module Binary64.
(** [float(i)] for a Python int, rounded to nearest. *)
Definition of_int (z : Z) : float :=
  SF2Prim (binary_normalize prec emax z 0 false).

(** Rounding to binary32, kept in the binary64 carrier. *)
Definition to_float32 (x : float) : float :=
  match Prim2SF x with
  | S754_finite s m e => SF2Prim (binary_round 24 128 s m e)
  | _ => x
  end.

(** Two's-complement wrap to 32 bits. *)
Definition to_int32 (z : Z) : Z := (z + 2 ^ 31) mod 2 ^ 32 - 2 ^ 31.

#[global] Instance float_cmp : FloatCmp float :=
  {| Feqb := PrimFloat.eqb; Fltb := PrimFloat.ltb; Fleb := PrimFloat.leb |}.

#[global] Instance float_arith : FloatArith float :=
  {| Fadd := PrimFloat.add; Fmul := PrimFloat.mul; Fpow_half := PrimFloat.sqrt;
     F_of_int := of_int; F_0_001 := 0x1.0624dd2f1a9fcp-10%float;
     F_1_5 := 1.5%float; Fisinf := PrimFloat.is_infinity |}.

#[global] Instance float_cast : NumpyCast float :=
  {| as_float32 := to_float32; as_int32 := to_int32 |}.

End Binary64.

(** ** [VoxelSelector.nodes2voxel_attributes] *)

Section nodes2voxel_attributes.
Context {F : Type} `{FloatCmp F, NumpyCast F}.

(** [==] and [<] of the tuples [(d, pos)]: the first components that
    differ decide. *)
Definition tuple_eqb (a b : F * F) : bool :=
  Feqb a.1 b.1 && Feqb a.2 b.2.

Definition tuple_ltb (a b : F * F) : bool :=
  if negb (Feqb a.1 b.1) then Fltb a.1 b.1
  else if negb (Feqb a.2 b.2) then Fltb a.2 b.2
  else false.

(** A Python [set] of tuples, as the list of its elements; [s.add(x)]. *)
Definition set_add (x : F * F) (s : list (F * F)) : list (F * F) :=
  if existsb (tuple_eqb x) s then s else s ++ [x].

(** [v2dps[vx].add((d, pos))] on a [defaultdict(set)]. *)
Definition v2dps_add (vx : Z) (dp : F * F) (v2dps : gmap Z (list (F * F)))
    : gmap Z (list (F * F)) :=
  <[vx := set_add dp (default [] (v2dps !! vx))]> v2dps.

(** [for vx, pos in vps.items(): v2dps[vx].add((d, pos))] *)
Definition add_node_voxels (d : F) (vps : gmap Z F)
    (v2dps : gmap Z (list (F * F))) : gmap Z (list (F * F)) :=
  foldl (λ acc vp, v2dps_add vp.1 (d, vp.2) acc) v2dps (map_to_list vps).

(** The loop over [n2d.iteritems()]. *)
Definition collect_v2dps (n2d : gmap Z F) (n2v : gmap Z (option (gmap Z F)))
    : gmap Z (list (F * F)) :=
  foldl (λ acc ndd,
           match n2v !! ndd.1 with
           | Some (Some vps) => add_node_voxels ndd.2 vps acc
           | _ => acc
           end) ∅ (map_to_list n2d).

(** The builtin [min] on a non-empty iterable: the running minimum is
    replaced by an item that is [<] it. *)
Fixpoint py_min_from (cur : F * F) (l : list (F * F)) : F * F :=
  match l with
  | [] => cur
  | x :: l' => py_min_from (if tuple_ltb x cur then x else cur) l'
  end.

Definition py_min (l : list (F * F)) : result (F * F) :=
  match l with
  | [] => Raise (ValueError "min() arg is an empty sequence")
  | x :: l' => Ok (py_min_from x l')
  end.

Definition unpack_dp (distancesummary : list (F * F) → result (F * F))
    (vxdp : Z * list (F * F)) : result (Z * F * F) :=
  dp ← distancesummary vxdp.2;
  Ok (vxdp.1, dp.1, dp.2).

(** [vdp.sort(key=operator.itemgetter(1))]: a stable sort on the distance,
    comparing keys with [<]. *)
Fixpoint insert_by_distance (x : Z * F * F) (l : list (Z * F * F)) : list (Z * F * F) :=
  match l with
  | [] => [x]
  | y :: l' =>
      if Fltb y.1.2 x.1.2 then y :: insert_by_distance x l' else x :: y :: l'
  end.

Definition sort_by_distance (l : list (Z * F * F)) : list (Z * F * F) :=
  foldr insert_by_distance [] l.

Definition nodes2voxel_attributes (n2d : gmap Z F)
    (n2v : gmap Z (option (gmap Z F)))
    (distancesummary : list (F * F) → result (F * F)) : result (VoxProps F) :=
  let v2dps := collect_v2dps n2d n2v in
  vdp ← mapM (unpack_dp distancesummary) (map_to_list v2dps);
  let vdp := sort_by_distance vdp in
  Ok {| linear_voxel_indices := (λ t, as_int32 t.1.1) <$> vdp;
        center_distances := (λ t, as_float32 t.1.2) <$> vdp;
        grey_matter_position := (λ t, as_float32 t.2) <$> vdp |}.
End nodes2voxel_attributes.

(** ** [_RadiusOptimizer] *)

(** [_curradius] and [_count] are bound by [get_start]; [None] is the
    attribute not yet bound. *)
Record _RadiusOptimizer (F : Type) : Type := mkRadiusOptimizer {
  _initradius : F;
  _initmult : F;
  _curradius : option F;
  _count : option Z
}.
Arguments mkRadiusOptimizer {F} _ _ _ _.
Arguments _initradius {F} _.
Arguments _initmult {F} _.
Arguments _curradius {F} _.
Arguments _count {F} _.

Section RadiusOptimizer.
Context {F : Type} `{FloatArith F}.

Definition _RadiusOptimizer_init (initradius : F) : _RadiusOptimizer F :=
  mkRadiusOptimizer initradius F_1_5 None None.

Definition get_start (self : _RadiusOptimizer F) : F * _RadiusOptimizer F :=
  (_initradius self,
   mkRadiusOptimizer (_initradius self) (_initmult self)
     (Some (_initradius self)) (Some 0)).

Definition get_next (self : _RadiusOptimizer F) : result (F * _RadiusOptimizer F) :=
  match _count self with
  | None => Raise (AttributeError "_count")
  | Some c =>
      match _curradius self with
      | None => Raise (AttributeError "_curradius")
      | Some r =>
          let r' := Fmul r (_initmult self) in
          Ok (r', mkRadiusOptimizer (_initradius self) (_initmult self)
                    (Some r') (Some (c + 1)))
      end
  end.

(** [set_final] is [pass]. *)
Definition set_final (self : _RadiusOptimizer F) (finalradius : F)
    : _RadiusOptimizer F := self.
End RadiusOptimizer.

(** ** [VoxelSelector] *)

(** The [radius] argument, by its Python type: an [int] (a machine word; a
    [long] is of another type), a [float], or anything else. *)
Inductive radius_arg (F : Type) : Type :=
  | RadiusInt (count : Z)
  | RadiusFloat (mm : F)
  | RadiusOther.
Arguments RadiusInt {F} count.
Arguments RadiusFloat {F} mm.
Arguments RadiusOther {F}.

(** [outside_node_margin]: [None], [True] or a float. *)
Inductive margin (F : Type) : Type :=
  | MarginNone
  | MarginTrue
  | MarginFloat (m : F).
Arguments MarginNone {F}.
Arguments MarginTrue {F}.
Arguments MarginFloat {F} m.

(** The two distance queries of [surf.Surface] the selector makes. The
    class lives in mvpa2.support.nibabel.surf; the queries are taken as
    given functions. *)
Record Surface (F : Type) : Type := mkSurface {
  circlearound_n2d : Z → F → string → gmap Z F;
  dijkstra_distance : Z → F → gmap Z F
}.
Arguments mkSurface {F} _ _.
Arguments circlearound_n2d {F} _ _ _ _.
Arguments dijkstra_distance {F} _ _ _.

Record VoxelSelector (F : Type) : Type := mkVoxelSelector {
  _fixedradius : bool;
  _targetradius : radius_arg F;
  _initradius_mm : F;
  _optimizer : _RadiusOptimizer F;
  _distance_metric : string;
  _surf : Surface F;
  _n2v : gmap Z (option (gmap Z F));
  _outside_node_margin : margin F
}.
Arguments mkVoxelSelector {F} _ _ _ _ _ _ _ _.
Arguments _fixedradius {F} _.
Arguments _targetradius {F} _.
Arguments _initradius_mm {F} _.
Arguments _optimizer {F} _.
Arguments _distance_metric {F} _.
Arguments _surf {F} _.
Arguments _n2v {F} _.
Arguments _outside_node_margin {F} _.

(** What [disc_voxel_attributes] binds to [voxel_attributes] and returns:
    [None], the list [[]], or the attribute dict. *)
Inductive selection (F : Type) : Type :=
  | SelNone
  | SelEmptyList
  | SelDict (voxprops : VoxProps F).
Arguments SelNone {F}.
Arguments SelEmptyList {F}.
Arguments SelDict {F} voxprops.

(** Truth value in [if voxel_attributes:] and [if not attrs:]. A dict is
    true when it has a key, and the attribute dict always has its three,
    whatever the length of the arrays bound to them. *)
Definition py_bool {F : Type} (v : selection F) : bool :=
  match v with
  | SelNone => false
  | SelEmptyList => false
  | SelDict _ => true
  end.

(** [voxel_attributes[CENTER_DISTANCES]] *)
Definition subscript_center_distances {F : Type} (v : selection F) : result (list F) :=
  match v with
  | SelDict va => Ok (center_distances va)
  | SelEmptyList => Raise (TypeError "list indices must be integers, not str")
  | SelNone => Raise (TypeError "'NoneType' object has no attribute '__getitem__'")
  end.

Definition maxiter : nat := 100.

Section VoxelSelector.
Context {F : Type} `{FloatCmp F, FloatArith F, NumpyCast F}.

(** [float(radius) ** .5]; Python 2 raises on a negative base. *)
Definition py_sqrt_of_int (radius : Z) : result F :=
  if radius <? 0
  then Raise (ValueError "negative number cannot be raised to a fractional power")
  else Ok (Fpow_half (F_of_int radius)).

(** [VoxelSelector.__init__] *)
Definition VoxelSelector_init (radius : radius_arg F) (surf : Surface F)
    (n2v : gmap Z (option (gmap Z F))) (distance_metric : string)
    (outside_node_margin : margin F) : result (VoxelSelector F) :=
  fi ← match radius with
       | RadiusInt c =>
           s ← py_sqrt_of_int c;
           Ok (false, Fadd F_0_001 (Fmul F_1_5 s))
       | RadiusFloat r => Ok (true, r)
       | RadiusOther =>
           Raise (TypeError "Illegal type for radius: expected int or float")
       end;
  Ok (mkVoxelSelector fi.1 radius fi.2 (_RadiusOptimizer_init fi.2)
        distance_metric surf n2v outside_node_margin).

Definition node_in_vol (n2v : gmap Z (option (gmap Z F))) (nd : Z) : bool :=
  match n2v !! nd with
  | Some (Some _) => true
  | _ => false
  end.

(** The value of [skip] at [if skip:] for a float margin: each loop clears
    [skip] and breaks at the first node that qualifies. *)
Definition skip_with_margin (self : VoxelSelector F) (src : Z) (m : F) : bool :=
  if Fisinf m then
    negb (existsb (λ ndv, node_in_vol (_n2v self) ndv.1) (map_to_list (_n2v self)))
  else
    let node_distances := dijkstra_distance (_surf self) src m in
    negb (existsb (λ ndd, node_in_vol (_n2v self) ndd.1 && Fleb ndd.2 m)
            (map_to_list node_distances)).

(** Whether the function leaves at [return []]: the center fails
    [node_in_vol], the margin is not [True], and [skip] is still set after
    the block under [if not outside_node_margin is None:]. *)
Definition skips_center (self : VoxelSelector F) (src : Z) : bool :=
  if node_in_vol (_n2v self) src then false
  else match _outside_node_margin self with
       | MarginTrue => false
       | MarginNone => true
       | MarginFloat m => skip_with_margin self src m
       end.

(** The variables live across the iterations of the growth loop. *)
Record loop_state : Type := mkLoopState {
  ls_iter : nat;
  ls_radius_mm : F;
  ls_voxel_attributes : option (VoxProps F);
  ls_optimizer : _RadiusOptimizer F
}.

(** [count] in the call [_select_approx(allvxdist, count=...)]. The
    constructor binds [_fixedradius = False] only with an int radius. *)
Definition select_count (self : VoxelSelector F) : result (option Z) :=
  if _fixedradius self then Ok None
  else match _targetradius self with
       | RadiusInt c => Ok (Some c)
       | _ => Raise (TypeError "count")
       end.

(** One pass of the body of [for iter in xrange(maxiter)]. The assignment
    under [if not allvxdist:] is overwritten by the next statement on
    either branch and is left out. *)
Definition growth_step (self : VoxelSelector F) (src : Z)
    (radius_mm : F) : result (option (VoxProps F)) :=
  let around_n2d :=
    circlearound_n2d (_surf self) src radius_mm (_distance_metric self) in
  allvxdist ← nodes2voxel_attributes around_n2d (_n2v self) py_min;
  count ← select_count self;
  _select_approx allvxdist count.

(** The loop over the remaining values [iters] of [xrange(maxiter)]; it is
    left by [break] with [voxel_attributes] bound to a dict, or at the end
    of the range with [None]. *)
Fixpoint growth_loop (self : VoxelSelector F) (src : Z) (iters : list nat)
    (st : loop_state) : result loop_state :=
  match iters with
  | [] => Ok st
  | iter :: rest =>
      voxel_attributes ← growth_step self src (ls_radius_mm st);
      match voxel_attributes with
      | None =>
          ro ← get_next (ls_optimizer st);
          growth_loop self src rest (mkLoopState iter ro.1 None ro.2)
      | Some va =>
          Ok (mkLoopState iter (ls_radius_mm st) (Some va) (ls_optimizer st))
      end
  end.

(** From [radius_mm = optimizer.get_start()] to the final [return]. *)
Definition grow_and_finish (self : VoxelSelector F) (src : Z)
    : result (selection F * _RadiusOptimizer F) :=
  let '(radius_mm, optimizer) := get_start (_optimizer self) in
  let radius := _targetradius self in
  st ← growth_loop self src (seq 0 maxiter) (mkLoopState 0 radius_mm None optimizer);
  if (maxiter <=? ls_iter st + 1)%nat then
    msg ← py_call_str
            ("Failure to increase radius to get %d voxels for " +:+ " node #%d")
            (radius, src);
    Raise (ValueError msg)
  else
    let voxel_attributes :=
      match ls_voxel_attributes st with
      | None => SelNone
      | Some va => SelDict va
      end in
    optimizer ←
      (if py_bool voxel_attributes then
         ds ← subscript_center_distances voxel_attributes;
         maxradius ← py_last ds;
         Ok (set_final (ls_optimizer st) maxradius)
       else Ok (ls_optimizer st));
    Ok (voxel_attributes, optimizer).

(** [VoxelSelector.disc_voxel_attributes]: the returned value and the
    optimizer as the call leaves it. *)
Definition disc_voxel_attributes (self : VoxelSelector F) (src : Z)
    : result (selection F * _RadiusOptimizer F) :=
  if skips_center self src then Ok (SelEmptyList, _optimizer self)
  else grow_and_finish self src.
End VoxelSelector.

(** ** The driver: [_reduce_mapper] and [voxel_selection] *)

(** The attribute dict once [LINEAR_VOXEL_INDICES] is popped. *)
Record MiscAttrs (F : Type) : Type := mkMiscAttrs {
  ma_center_distances : list F;
  ma_grey_matter_position : list F
}.
Arguments mkMiscAttrs {F} _ _.
Arguments ma_center_distances {F} _.
Arguments ma_grey_matter_position {F} _.

(** Modelled from the spec: the result container
    [volume_mask_dict.VolumeMaskDictionary] is not part of this module. It is
    taken as the sparse mapping from a node id to the voxel indices and
    attributes stored for it, with [add] an insertion and [merge] the union
    of two mappings built from disjoint node sets. *)
Abbreviation VolumeMaskDictionary F := (gmap Z (list Z * MiscAttrs F)).

(** Modelled from the spec: [add(node, voxel_indices, attributes)] of the
    result container, an insertion. *)
Definition vmd_add {F : Type} (src : Z) (idxs : list Z) (attrs : MiscAttrs F)
    (d : VolumeMaskDictionary F) : VolumeMaskDictionary F :=
  <[src := (idxs, attrs)]> d.

(** Modelled from the spec: [merge(other)] of the result container, the
    union of two mappings. *)
Definition vmd_merge {F : Type} (d other : VolumeMaskDictionary F)
    : VolumeMaskDictionary F := d ∪ other.

(** The calls of [mvpa2.base.warning] the driver can make. *)
Inductive warning_msg : Type :=
  | WarnNoPprocess
  | WarnNoVoxels (nnodes : nat).

(** What [voxel_selection] takes from its collaborators: the intermediate
    surface of [vol_surf], the table [vol_surf.node2voxels(...)] returns (the
    sampling parameters reach nothing else), the vertex count of the source
    surface, the mapping [map_to_high_resolution_surf] returns, the
    permutation [np.random.permutation] draws, and what importing [pprocess]
    gives: [None] when the import fails, the detected core count
    otherwise. *)
Record Collaborators (F : Type) : Type := mkCollaborators {
  intermediate_surface : Surface F;
  node2voxels : gmap Z (option (gmap Z F));
  source_nvertices : nat;
  src2intermediate : gmap Z Z;
  random_permutation : list nat;
  pprocess_cores : option Z
}.
Arguments mkCollaborators {F} _ _ _ _ _ _.
Arguments intermediate_surface {F} _.
Arguments node2voxels {F} _.
Arguments source_nvertices {F} _.
Arguments src2intermediate {F} _.
Arguments random_permutation {F} _.
Arguments pprocess_cores {F} _.

(** [np.array_split(xs, nsections)]: the first [len(xs) % nsections] blocks
    hold one element more than the others. *)
Fixpoint split_sizes {A : Type} (sizes : list nat) (l : list A) : list (list A) :=
  match sizes with
  | [] => []
  | n :: sizes' => take n l :: split_sizes sizes' (drop n l)
  end.

Definition array_split {A : Type} (l : list A) (nsections : nat) : list (list A) :=
  let each := (length l / nsections)%nat in
  let extras := (length l mod nsections)%nat in
  split_sizes (replicate extras (S each) ++ replicate (nsections - extras) each) l.

Section driver.
Context {F : Type} `{FloatCmp F, FloatArith F, NumpyCast F}.

Definition with_optimizer (self : VoxelSelector F) (o : _RadiusOptimizer F)
    : VoxelSelector F :=
  mkVoxelSelector (_fixedradius self) (_targetradius self) (_initradius_mm self)
    o (_distance_metric self) (_surf self) (_n2v self) (_outside_node_margin self).

(** [VoxelSelector.disc_voxel_indices_and_attributes]; the pair
    [(None, None)] is [None]. *)
Definition disc_voxel_indices_and_attributes (self : VoxelSelector F) (src : Z)
    : result (option (list Z * MiscAttrs F) * _RadiusOptimizer F) :=
  ao ← disc_voxel_attributes self src;
  let attrs := ao.1 in
  if negb (py_bool attrs) then Ok (None, ao.2)
  else
    match attrs with
    | SelDict va =>
        Ok (Some (linear_voxel_indices va,
                  mkMiscAttrs (center_distances va) (grey_matter_position va)),
            ao.2)
    | _ => Raise (AttributeError "pop")
    end.

(** [_reduce_mapper], [attribute_mapper] being the bound method
    [disc_voxel_indices_and_attributes] of [self]; the selector is returned
    with its optimizer as the calls left it. *)
Fixpoint _reduce_mapper (node2volume_attributes : VolumeMaskDictionary F)
    (self : VoxelSelector F) (src_trg_indices : list (Z * Z))
    : result (VolumeMaskDictionary F * VoxelSelector F) :=
  match src_trg_indices with
  | [] => Ok (node2volume_attributes, self)
  | st :: rest =>
      io ← disc_voxel_indices_and_attributes self st.2;
      let node2volume_attributes :=
        match io.1 with
        | Some (idxs, misc_attrs) => vmd_add st.1 idxs misc_attrs node2volume_attributes
        | None => node2volume_attributes
        end in
      _reduce_mapper node2volume_attributes (with_optimizer self io.2) rest
  end.

(** [nproc] after the [if nproc is None:] block, with the warning it may
    emit. *)
Definition resolve_nproc (env : Collaborators F) (nproc : option Z)
    : list warning_msg * Z :=
  match nproc with
  | Some n => ([], n)
  | None =>
      match pprocess_cores env with
      | Some c => ([], if c =? 0 then 1 else c)
      | None => ([WarnNoPprocess], 1)
      end
  end.

(** The [for i, result in enumerate(results)] loop. *)
Fixpoint merge_results (node2volume_attributes : option (VolumeMaskDictionary F))
    (i : nat) (results : list (VolumeMaskDictionary F))
    : result (option (VolumeMaskDictionary F)) :=
  match results with
  | [] => Ok node2volume_attributes
  | r :: results' =>
      if (i =? 0)%nat then merge_results (Some r) (S i) results'
      else
        match node2volume_attributes with
        | Some d => merge_results (Some (vmd_merge d r)) (S i) results'
        | None => Raise (AttributeError "merge")
        end
  end.

(** The branch [if nproc > 1:]. Each worker runs [_reduce_mapper] in its own
    process, on its own copy of the selector; [results] yields what the
    workers return, in the order of the calls. *)
Definition run_blocks (env : Collaborators F) (voxel_selector : VoxelSelector F)
    (src_trg_nodes : list (Z * Z)) (nproc : Z)
    : result (option (VolumeMaskDictionary F)) :=
  match pprocess_cores env with
  | None => Raise (ImportError "No module named pprocess")
  | Some _ =>
      let blocks := array_split src_trg_nodes (Z.to_nat nproc) in
      results ← mapM (λ src_trg,
                        r ← _reduce_mapper ∅ voxel_selector src_trg;
                        Ok r.1) blocks;
      merge_results None 0 results
  end.

(** [voxel_selection], from the construction of the selector on: the
    warnings emitted, then the exception raised or the value returned.
    [None] for [source_surf_nodes] or [nproc] is the Python default. *)
Definition voxel_selection (env : Collaborators F) (radius : radius_arg F)
    (source_surf_nodes : option (list Z)) (distance_metric : string)
    (nproc : option Z) (outside_node_margin : margin F)
    : list warning_msg * result (option (VolumeMaskDictionary F)) :=
  let source_surf_nodes :=
    match source_surf_nodes with
    | Some nodes => nodes
    | None => Z.of_nat <$> seq 0 (source_nvertices env)
    end in
  let visitorder := random_permutation env in
  let n2v := node2voxels env in
  let prepared :=
    voxel_selector ← VoxelSelector_init radius (intermediate_surface env) n2v
                       distance_metric outside_node_margin;
    srcs_order ← mapM (λ node, match source_surf_nodes !! node with
                               | Some src => Ok src
                               | None => Raise (IndexError "index out of range")
                               end) visitorder;
    src_trg_nodes ← mapM (λ src, match src2intermediate env !! src with
                                 | Some trg => Ok (src, trg)
                                 | None => Raise (KeyError "src")
                                 end) srcs_order;
    Ok (voxel_selector, src_trg_nodes) in
  match prepared with
  | Raise e => ([], Raise e)
  | Ok (voxel_selector, src_trg_nodes) =>
      let '(warnings, nproc) := resolve_nproc env nproc in
      let computed :=
        if 1 <? nproc then run_blocks env voxel_selector src_trg_nodes nproc
        else
          r ← _reduce_mapper ∅ voxel_selector src_trg_nodes;
          Ok (Some r.1) in
      match computed with
      | Raise e => (warnings, Raise e)
      | Ok node2volume_attributes =>
          let warnings :=
            match node2volume_attributes with
            | None => warnings ++ [WarnNoVoxels (length visitorder)]
            | Some _ => warnings
            end in
          (warnings, Ok node2volume_attributes)
      end
  end.
End driver.

(** ** Concrete inputs *)

Module Inputs.
Import Binary64.

(** A surface with the nodes 0 and 1, [far] apart: the disc around node 0
    holds node 1 once the radius reaches [far]. *)
Definition two_nodes (far : float) : Surface float :=
  mkSurface
    (λ src radius_mm _,
       if PrimFloat.leb far radius_mm
       then <[src := 0%float]> {[ 1 - src := far ]}
       else {[ src := 0%float ]})
    (λ src maxdistance,
       if PrimFloat.leb far maxdistance
       then <[src := 0%float]> {[ 1 - src := far ]}
       else {[ src := 0%float ]}).

(** Node 1 encloses voxel 7, node 0 lies outside the volume. *)
Definition n2v_node1 : gmap Z (option (gmap Z float)) :=
  {[ 1 := Some {[ 7 := 0.5%float ]} ]}.

Definition selector (radius : radius_arg float) (far : float)
    (outside_node_margin : margin float) : result (VoxelSelector float) :=
  VoxelSelector_init radius (two_nodes far) n2v_node1 "dijkstra" outside_node_margin.

(** The selector [selector] builds; the construction succeeds for the radii
    used below. *)
Definition built (radius : radius_arg float) (far : float)
    (outside_node_margin : margin float) : VoxelSelector float :=
  match selector radius far outside_node_margin with
  | Ok self => self
  | Raise _ =>
      mkVoxelSelector true radius 0%float (_RadiusOptimizer_init 0%float) ""
        (two_nodes far) ∅ outside_node_margin
  end.

(** The growth loop of [disc_voxel_attributes] on its own: the index of the
    last iteration run and what [voxel_attributes] is bound to after it. *)
Definition run_growth (self : VoxelSelector float) (src : Z)
    : result (nat * option (VoxProps float)) :=
  let '(radius_mm, optimizer) := get_start (_optimizer self) in
  st ← growth_loop self src (seq 0 maxiter) (mkLoopState 0 radius_mm None optimizer);
  Ok (ls_iter st, ls_voxel_attributes st).

Definition run_disc (self : VoxelSelector float) (src : Z)
    : result (selection float) :=
  r ← disc_voxel_attributes self src;
  Ok r.1.

(** Collaborators of a run on the two-node surface, both nodes being
    centers, visited in the order 1, 0, without [pprocess]. *)
Definition two_node_run (n2v : gmap Z (option (gmap Z float)))
    : Collaborators float :=
  mkCollaborators (two_nodes 10%float) n2v 2 (<[0 := 0]> {[ 1 := 1 ]})
    [1; 0]%nat None.
End Inputs.

(** ** Exact numbers, for instantiating the general theorems *)

Module IntDistances.
(** Distances and positions that are whole numbers; the array conversions
    leave them as they are. *)
#[global] Instance Z_cmp : FloatCmp Z :=
  {| Feqb := Z.eqb; Fltb := Z.ltb; Fleb := Z.leb |}.

#[global] Instance Z_cast : NumpyCast Z :=
  {| as_float32 := λ x, x; as_int32 := λ x, x |}.


End IntDistances.

(** ** Vocabulary of the statements *)

Section vocabulary.
Context {F : Type} `{FloatCmp F, FloatArith F}.

(** The loop of [scan_chunks], the chunk kept as its first index [s] and the
    index [i] after its last: the result is (first index, index after the
    last, chunk count). *)
Fixpoint scan_idx (count : Z) (ds : list F) (i s : nat) (prevd : F) (k : nat)
    : nat * nat * nat :=
  match ds with
  | [] => (s, i, k)
  | d :: ds' =>
      if (0 <? i)%nat && negb (Feqb prevd d) then
        if Z.of_nat i >=? count then (s, i, k)
        else scan_idx count ds' (S i) i d (S k)
      else scan_idx count ds' (S i) s d k
  end.

(** The indices [firstpos .. lastpos] of [ds] are a chunk: a run of equal
    distances that extends on neither side. *)
Definition is_chunk (ds : list F) (firstpos lastpos : nat) : Prop :=
  (firstpos ≤ lastpos < length ds)%nat ∧
  (∀ j, (firstpos ≤ j ≤ lastpos)%nat → ds !! j = ds !! firstpos) ∧
  ((0 < firstpos)%nat → ds !! (firstpos - 1)%nat ≠ ds !! firstpos) ∧
  ((lastpos + 1 < length ds)%nat → ds !! (lastpos + 1)%nat ≠ ds !! lastpos).

(** Distances in ascending order, tested with [<=]. *)
Fixpoint ascendingb (ds : list F) : bool :=
  match ds with
  | [] => true
  | d :: ds' =>
      match ds' with
      | [] => true
      | d' :: _ => Fleb d d' && ascendingb ds'
      end
  end.

(** [(d, pos)] is contributed to voxel [vx] by a node of [n2d] that
    encloses it. *)
Definition contributes (n2d : gmap Z F) (n2v : gmap Z (option (gmap Z F)))
    (vx : Z) (dp : F * F) : Prop :=
  ∃ nd vps, n2d !! nd = Some dp.1 ∧ n2v !! nd = Some (Some vps) ∧
            vps !! vx = Some dp.2.





(** Method calls on an optimizer, and a sequence of them run in order. *)
Inductive optimizer_call : Type :=
  | CallGetStart
  | CallGetNext
  | CallSetFinal (finalradius : F).

Fixpoint run_calls (calls : list optimizer_call) (o : _RadiusOptimizer F)
    : result (_RadiusOptimizer F) :=
  match calls with
  | [] => Ok o
  | CallGetStart :: calls' => run_calls calls' (get_start o).2
  | CallGetNext :: calls' => ro ← get_next o; run_calls calls' ro.2
  | CallSetFinal r :: calls' => run_calls calls' (set_final o r)
  end.

(** Some other node within distance [m] of [src], by the Dijkstra query,
    has an entry in the table that is not [None]. *)
Definition inside_node_within (self : VoxelSelector F) (src : Z) (m : F) : Prop :=
  ∃ nd d, nd ≠ src ∧ dijkstra_distance (_surf self) src m !! nd = Some d ∧
          Fleb d m = true ∧ node_in_vol (_n2v self) nd = true.
End vocabulary.

(** ** Vocabulary of the further properties *)

(** What a call returns, without the optimizer it leaves. *)
Definition returned {A B : Type} (r : result (A * B)) : result A :=
  match r with
  | Ok ab => Ok ab.1
  | Raise e => Raise e
  end.

Section further_vocabulary.
Context {F : Type} `{FloatCmp F, FloatArith F, NumpyCast F}.

(** What [__init__] establishes between [_fixedradius] and
    [_targetradius]: the radius is an int unless [_fixedradius] is set. *)
Definition well_formed (self : VoxelSelector F) : bool :=
  _fixedradius self ||
  match _targetradius self with
  | RadiusInt _ => true
  | _ => false
  end.

(** The radius of the [k]-th trial of a search: the initial radius after
    [k] multiplications by [_initmult]. *)
Definition trial_radius (self : VoxelSelector F) (k : nat) : F :=
  Nat.iter k (λ x, Fmul x (_initmult (_optimizer self)))
    (_initradius (_optimizer self)).

(** The value of [_count] after [calls], from the value [c]. *)
Fixpoint count_after (calls : list (optimizer_call (F := F))) (c : Z) : Z :=
  match calls with
  | [] => c
  | CallGetStart :: calls' => count_after calls' 0
  | CallGetNext :: calls' => count_after calls' (c + 1)
  | CallSetFinal _ :: calls' => count_after calls' c
  end.

(** [m] has a set, and a non-empty one, exactly for the voxels in [C]. *)
Definition v2dps_keys (m : gmap Z (list (F * F))) (C : Z → Prop) : Prop :=
  ∀ vx, match m !! vx with
        | Some dps => dps ≠ [] ∧ C vx
        | None => ¬ C vx
        end.

(** The three arrays of an attribute dict have one length. *)
Definition parallel_arrays (va : VoxProps F) : Prop :=
  length (linear_voxel_indices va) = length (center_distances va) ∧
  length (grey_matter_position va) = length (center_distances va).

(** What [attribute_mapper(trg)] gives for a center, as a function of the
    selector and the node alone. *)
Definition center_entry (self : VoxelSelector F) (trg : Z)
    : result (option (list Z * MiscAttrs F)) :=
  returned (disc_voxel_indices_and_attributes self trg).

(** A center with what [attribute_mapper] gives for it. *)
Definition entry_of (self : VoxelSelector F) (st : Z * Z)
    : result (Z * option (list Z * MiscAttrs F)) :=
  e ← center_entry self st.2;
  Ok (st.1, e).

(** The [add] calls of [_reduce_mapper], for centers already mapped. *)
Definition insert_entries (d : VolumeMaskDictionary F)
    (es : list (Z * option (list Z * MiscAttrs F))) : VolumeMaskDictionary F :=
  foldl (λ acc se,
           match se.2 with
           | Some (idxs, misc_attrs) => vmd_add se.1 idxs misc_attrs acc
           | None => acc
           end) d es.

(** Each first component of [l] comes with one second component. *)
Definition functional {A B : Type} (l : list (A * B)) : Prop :=
  ∀ a b b', (a, b) ∈ l → (a, b') ∈ l → b = b'.

(** The environment with another visiting order. *)
Definition with_permutation (env : Collaborators F) (visitorder : list nat)
    : Collaborators F :=
  mkCollaborators (intermediate_surface env) (node2voxels env)
    (source_nvertices env) (src2intermediate env) visitorder
    (pprocess_cores env).

(** The center nodes of a run. *)
Definition centers (env : Collaborators F) (source_surf_nodes : option (list Z))
    : list Z :=
  match source_surf_nodes with
  | Some nodes => nodes
  | None => Z.of_nat <$> seq 0 (source_nvertices env)
  end.
(** The pairs (center, node on the intermediate surface) of a run, in
    visiting order: [src_trg_nodes]. *)
Definition src_trg_of (env : Collaborators F) (source_surf_nodes : option (list Z))
    : result (list (Z * Z)) :=
  srcs_order ← mapM (λ node, match centers env source_surf_nodes !! node with
                             | Some src => Ok src
                             | None => Raise (IndexError "index out of range")
                             end) (random_permutation env);
  mapM (λ src, match src2intermediate env !! src with
               | Some trg => Ok (src, trg)
               | None => Raise (KeyError "src")
               end) srcs_order.

(** A run in terms of the entries of its centers. *)
Definition run_of_entries (env : Collaborators F) (radius : radius_arg F)
    (source_surf_nodes : option (list Z)) (distance_metric : string)
    (nproc : option Z) (outside_node_margin : margin F)
    : list warning_msg * result (option (VolumeMaskDictionary F)) :=
  match (self ← VoxelSelector_init radius (intermediate_surface env)
                   (node2voxels env) distance_metric outside_node_margin;
         l ← src_trg_of env source_surf_nodes;
         Ok (self, l)) with
  | Raise e => ([], Raise e)
  | Ok (self, l) =>
      let '(warnings, n) := resolve_nproc env nproc in
      if (1 <? n) && bool_decide (pprocess_cores env = None)
      then (warnings, Raise (ImportError "No module named pprocess"))
      else match mapM (entry_of self) l with
           | Ok es => (warnings, Ok (Some (insert_entries ∅ es)))
           | Raise e => (warnings, Raise e)
           end
  end.
End further_vocabulary.

(** * Properties *)

(** ** [_select_approx] *)

Section select_approx_facts.
Context {F : Type} `{FloatCmp F}.

Lemma seq_snoc_from (s i : nat) :
  (s ≤ i)%nat → seq s (i - s) ++ [i] = seq s (S i - s).
Proof.
  intros Hsi. replace (S i - s)%nat with (S (i - s)) by lia.
  rewrite seq_S. do 2 f_equal. lia.
Qed.

Lemma scan_chunks_idx (count : Z) (ds : list F) :
  ∀ (i s : nat) (prevd : F) (k : nat), (s ≤ i)%nat →
    scan_chunks count ds i (seq s (i - s)) prevd k =
    let r := scan_idx count ds i s prevd k in
    (seq r.1.1 (r.1.2 - r.1.1), r.2).
Proof.
  induction ds as [|d ds IH]; intros i s prevd k Hsi; simpl; [done|].
  destruct ((0 <? i)%nat && negb (Feqb prevd d)).
  - destruct (Z.of_nat i >=? count); [done|].
    specialize (IH (S i) i d (S k)).
    replace (S i - i)%nat with 1%nat in IH by lia. simpl in IH.
    apply IH. lia.
  - rewrite seq_snoc_from by done. apply IH. lia.
Qed.

(** Where the scan can stop, from a state whose chunk is not empty. *)
Lemma scan_idx_bounds (count : Z) (ds : list F) :
  ∀ (i s : nat) (prevd : F) (k : nat) s' e k',
    (s < i)%nat →
    scan_idx count ds i s prevd k = (s', e, k') →
    (s' < e)%nat ∧ (i ≤ e ≤ i + length ds)%nat ∧
    (s' = s ∨ ((i ≤ s')%nat ∧ Z.of_nat s' < count)) ∧
    (e = (i + length ds)%nat ∨ count ≤ Z.of_nat e).
Proof.
  induction ds as [|d ds IH]; intros i s prevd k s' e k' Hsi Hscan; simpl in *.
  { inversion Hscan; subst. lia. }
  destruct ((0 <? i)%nat && negb (Feqb prevd d)).
  - destruct (Z.of_nat i >=? count) eqn:Hge.
    + inversion Hscan; subst. lia.
    + apply IH in Hscan; [|lia]. lia.
  - apply IH in Hscan; [|lia]. lia.
Qed.

(** Cutting the distances after the chunk leaves the scan as it was, also
    for a larger count. *)
Lemma scan_idx_prefix (count count' : Z) (ds : list F) :
  ∀ (i s : nat) (prevd : F) (k : nat) s' e k',
    (s < i)%nat → count ≤ count' →
    scan_idx count ds i s prevd k = (s', e, k') →
    scan_idx count' (take (e - i) ds) i s prevd k = (s', e, k').
Proof.
  induction ds as [|d ds IH]; intros i s prevd k s' e k' Hsi Hcc Hscan.
  { simpl in *. by rewrite take_nil. }
  simpl in Hscan.
  destruct ((0 <? i)%nat && negb (Feqb prevd d)) eqn:Hb.
  - destruct (Z.of_nat i >=? count) eqn:Hge.
    + inversion Hscan; subst. by rewrite Nat.sub_diag.
    + pose proof Hscan as Hbd. apply scan_idx_bounds in Hbd; [|lia].
      replace (e - i)%nat with (S (e - S i)) by lia. simpl. rewrite Hb.
      replace (Z.of_nat i >=? count') with false by lia.
      apply IH; [lia|done|done].
  - pose proof Hscan as Hbd. apply scan_idx_bounds in Hbd; [|lia].
    replace (e - i)%nat with (S (e - S i)) by lia. simpl. rewrite Hb.
    apply IH; [lia|done|done].
Qed.

(** The scan of a non-empty list of distances, in terms of [scan_idx]. *)
Lemma select_scan_idx (d : F) (ds : list F) (count : Z) :
  count ≤ Z.of_nat (S (length ds)) →
  ∃ s e k,
    scan_idx count ds 1 0 d 1 = (s, e, k) ∧ (s < e)%nat ∧
    select_scan (d :: ds) count =
      Ok (Some (mkChunkScan s (e - 1) k (chunk_delta count s (e - 1))
                  (chunk_cutpos count s (e - 1) k))).
Proof.
  intros Hn. destruct (scan_idx count ds 1 0 d 1) as [[s e] k] eqn:Hscan.
  exists s, e, k. split; [done|].
  pose proof Hscan as Hbd. apply scan_idx_bounds in Hbd as (Hse & _); [|lia].
  split; [done|]. unfold select_scan.
  assert (Hlt : (Z.of_nat (length (d :: ds)) <? count) = false)
    by (apply Z.ltb_ge; simpl length; lia).
  rewrite Hlt. simpl.
  pose proof (scan_chunks_idx count ds 1 0 d 1 ltac:(lia)) as Hc.
  simpl in Hc. rewrite Hc, Hscan. simpl.
  destruct (e - s)%nat as [|m] eqn:Hm; [lia|].
  unfold py_first, py_last. simpl.
  replace (s :: seq (S s) m) with (seq s (S m)) by done.
  rewrite seq_S, last_snoc. simpl.
  replace (s + m)%nat with (e - 1)%nat by lia. done.
Qed.

Lemma chunk_cutpos_cases (count : Z) (s l k : nat) :
  chunk_cutpos count s l k = (l + 1)%nat ∨ chunk_cutpos count s l k = s.
Proof. unfold chunk_cutpos. repeat case_match; auto. Qed.

Lemma chunk_cutpos_mono (count count' : Z) (s l k : nat) :
  (s ≤ l)%nat → count ≤ count' →
  chunk_cutpos count s l k = (l + 1)%nat →
  chunk_cutpos count' s l k = (l + 1)%nat.
Proof.
  unfold chunk_cutpos, chunk_delta. intros Hsl Hcc.
  destruct (Z.gtb_spec (count - Z.of_nat s - (Z.of_nat l - count)) 0),
    (Z.gtb_spec (count' - Z.of_nat s - (Z.of_nat l - count')) 0); try done; try lia.
  destruct (Z.ltb_spec (count - Z.of_nat s - (Z.of_nat l - count)) 0); [lia|].
  destruct (Z.ltb_spec (count' - Z.of_nat s - (Z.of_nat l - count')) 0); [lia|].
  done.
Qed.

Lemma slice_to_idemp (cut : nat) (vp : VoxProps F) :
  slice_to cut (slice_to cut vp) = slice_to cut vp.
Proof. unfold slice_to. simpl. by rewrite !take_take, Nat.min_id. Qed.

Lemma select_scan_short (ds : list F) (count : Z) :
  Z.of_nat (length ds) < count ∨ length ds = 0%nat →
  select_scan ds count = Ok None.
Proof.
  intros Hn. unfold select_scan.
  destruct (Z.ltb_spec (Z.of_nat (length ds)) count); [done|].
  destruct Hn as [? | Hz]; [lia | by rewrite Hz].
Qed.

(** C4 (as amended). Running [_select_approx] again on what it returned,
    with the same or a larger count, returns that output unchanged when it
    holds at least that many voxels and at least one, and reports
    insufficient ([None]) when it does not; with no count the output comes
    back unchanged. No order on the distances is needed. *)
Theorem select_approx_rerun (vp out : VoxProps F) (count count' : Z) :
  _select_approx vp (Some count) = Ok (Some out) →
  count ≤ count' →
  _select_approx out (Some count') =
    (if (Z.of_nat (length (center_distances out)) <? count')
        || (length (center_distances out) =? 0)%nat
     then Ok None else Ok (Some out)) ∧
  _select_approx out None = Ok (Some out).
Proof.
  intros Hsel Hcc. split; [|done].
  unfold _select_approx in Hsel.
  destruct (center_distances vp) as [|d ds] eqn:Hds.
  { rewrite select_scan_short in Hsel by (by right). done. }
  destruct (Z.lt_ge_cases (Z.of_nat (S (length ds))) count) as [Hlt|Hge].
  { rewrite select_scan_short in Hsel by (simpl; lia). done. }
  destruct (select_scan_idx d ds count ltac:(lia)) as (s & e & k & Hscan & Hse & Hss).
  rewrite Hss in Hsel. simpl in Hsel. inversion Hsel as [Hout]. clear Hsel. subst out.
  pose proof Hscan as Hbd. apply scan_idx_bounds in Hbd as (_ & Hle & Hs & _); [|lia].
  unfold _select_approx.
  destruct (chunk_cutpos_cases count s (e - 1) k) as [Hcut|Hcut].
  - (* the chunk was included *)
    replace (e - 1 + 1)%nat with e in Hcut by lia.
    simpl cs_cutpos. rewrite Hcut.
    assert (Htake : center_distances (slice_to e vp) = d :: take (e - 1) ds).
    { simpl. rewrite Hds. replace e with (S (e - 1)) at 1 by lia. done. }
    rewrite Htake. simpl length. rewrite length_take.
    replace (S ((e - 1) `min` length ds)) with e by lia.
    destruct (Z.ltb_spec (Z.of_nat e) count') as [Hec|Hec].
    { rewrite select_scan_short; [done|]. simpl length. rewrite length_take. lia. }
    destruct (select_scan_idx d (take (e - 1) ds) count')
      as (s2 & e2 & k2 & Hscan2 & _ & Hss2).
    { rewrite length_take. lia. }
    rewrite (scan_idx_prefix count count' ds 1 0 d 1 s e k) in Hscan2 by (done || lia).
    inversion Hscan2; subst s2 e2 k2. rewrite Hss2. simpl.
    rewrite (chunk_cutpos_mono count count') by (done || lia).
    replace (e - 1 + 1)%nat with e by lia.
    rewrite slice_to_idemp.
    by replace (e =? 0)%nat with false by (symmetry; apply Nat.eqb_neq; lia).
  - (* the chunk was left out *)
    simpl cs_cutpos. rewrite Hcut.
    assert (Hlen : length (center_distances (slice_to s vp)) = s).
    { simpl. rewrite Hds, length_take. simpl length. lia. }
    rewrite Hlen.
    assert (Hshort : Z.of_nat s < count' ∨ s = 0%nat) by lia.
    rewrite select_scan_short by (rewrite Hlen; lia).
    destruct Hshort as [? | Hz]; [| by rewrite Hz, orb_true_r].
    by replace (Z.of_nat s <? count') with true by lia.
Qed.
End select_approx_facts.

Section select_approx_chunks.
Context {F : Type} `{FloatEqLaws F}.

Lemma Feqb_neq (x y : F) : Feqb x y = false ↔ x ≠ y.
Proof. rewrite <- Feqb_eq. by destruct (Feqb x y). Qed.

(** The scan stops on a chunk of the whole list [allds]. *)
Lemma scan_idx_chunk (allds : list F) (count : Z) (ds : list F) :
  ∀ (i s : nat) (prevd : F) (k : nat) s' e k',
    (s < i)%nat → drop i allds = ds → allds !! (i - 1)%nat = Some prevd →
    (∀ j, (s ≤ j < i)%nat → allds !! j = allds !! s) →
    ((0 < s)%nat → allds !! (s - 1)%nat ≠ allds !! s) →
    scan_idx count ds i s prevd k = (s', e, k') →
    (∀ j, (s' ≤ j < e)%nat → allds !! j = allds !! s') ∧
    ((0 < s')%nat → allds !! (s' - 1)%nat ≠ allds !! s') ∧
    ((e < length allds)%nat → allds !! e ≠ allds !! (e - 1)%nat).
Proof.
  induction ds as [|d ds IH]; intros i s prevd k s' e k' Hsi Hdrop Hprev Hrun Hbnd Hscan.
  { simpl in Hscan. inversion Hscan; subst. split_and!; [done..|].
    apply drop_nil_inv in Hdrop. lia. }
  assert (Hi : allds !! i = Some d).
  { rewrite <- (Nat.add_0_r i), <- lookup_drop, Hdrop. done. }
  assert (Hdrop' : drop (S i) allds = ds).
  { rewrite (drop_S _ _ _ Hi) in Hdrop. by inversion Hdrop. }
  assert (Hprev' : allds !! (S i - 1)%nat = Some d).
  { by replace (S i - 1)%nat with i by lia. }
  simpl in Hscan.
  replace (0 <? i)%nat with true in Hscan by (symmetry; apply Nat.ltb_lt; lia).
  simpl in Hscan.
  destruct (Feqb prevd d) eqn:Heq; simpl in Hscan.
  - apply Feqb_eq in Heq. subst d.
    eapply IH; [| done | done | | done | done]; [lia|].
    intros j Hj. destruct (decide (j = i)) as [->|]; [|apply Hrun; lia].
    rewrite Hi, <- Hprev. apply Hrun. lia.
  - apply Feqb_neq in Heq.
    assert (Hne : allds !! (i - 1)%nat ≠ allds !! i) by (rewrite Hi, Hprev; congruence).
    destruct (Z.of_nat i >=? count).
    + inversion Hscan; subst. split_and!; [done..|]. intros _. congruence.
    + eapply IH; [| done | done | | | done]; [lia| |done].
      intros j Hj. by replace j with i by lia.
Qed.

(** C6. With [1 ≤ k ≤ n], [_select_approx] returns the prefix cut at the
    first index of the chunk holding the [k]-th voxel (the run of equal
    distances with [firstpos < k ≤ lastpos + 1]) or at the index after its
    last; the number of voxels returned is that cut position and differs
    from [k] by at most the size of the chunk. The distances need not be
    sorted for this. *)
Theorem select_approx_cut_at_chunk (vp : VoxProps F) (k : Z) :
  length (linear_voxel_indices vp) = length (center_distances vp) →
  length (grey_matter_position vp) = length (center_distances vp) →
  1 ≤ k ≤ Z.of_nat (length (center_distances vp)) →
  ∃ firstpos lastpos cutpos : nat,
    _select_approx vp (Some k) = Ok (Some (slice_to cutpos vp)) ∧
    is_chunk (center_distances vp) firstpos lastpos ∧
    Z.of_nat firstpos < k ≤ Z.of_nat lastpos + 1 ∧
    (cutpos = firstpos ∨ cutpos = (lastpos + 1)%nat) ∧
    length (linear_voxel_indices (slice_to cutpos vp)) = cutpos ∧
    length (center_distances (slice_to cutpos vp)) = cutpos ∧
    length (grey_matter_position (slice_to cutpos vp)) = cutpos ∧
    Z.abs (Z.of_nat cutpos - k) ≤ Z.of_nat (lastpos - firstpos + 1).
Proof.
  intros Hli Hlg Hk. unfold _select_approx.
  destruct (center_distances vp) as [|d ds] eqn:Hds; [simpl in Hk; lia|].
  simpl length in *.
  destruct (select_scan_idx d ds k ltac:(lia)) as (s & e & c & Hscan & Hse & Hss).
  rewrite Hss. simpl.
  pose proof Hscan as Hbd.
  apply scan_idx_bounds in Hbd as (_ & Hle & Hs & He); [|lia].
  pose proof (scan_idx_chunk (d :: ds) k ds 1 0 d 1 s e c) as Hch.
  destruct Hch as (Hrun & Hlo & Hhi); [lia|done|done| |lia|done|].
  { intros j Hj. by replace j with 0%nat by lia. }
  exists s, (e - 1)%nat, (chunk_cutpos k s (e - 1) c).
  split; [done|]. split.
  { unfold is_chunk. simpl length. split_and!; [lia|lia| | |].
    - intros j Hj. apply Hrun. lia.
    - done.
    - replace (e - 1 + 1)%nat with e by lia. done. }
  split; [lia|].
  destruct (chunk_cutpos_cases k s (e - 1) c) as [Hcut|Hcut].
  - split; [by right|]. rewrite Hcut. simpl.
    rewrite !length_take, Hli, Hlg, Hds. simpl length.
    split_and!; lia.
  - split; [by left|]. rewrite Hcut. simpl.
    rewrite !length_take, Hli, Hlg, Hds. simpl length.
    split_and!; lia.
Qed.
End select_approx_chunks.

(** ** [nodes2voxel_attributes] *)

Lemma mapM_result_Ok {A B : Type} (f : A → result B) (l : list A) :
  (∀ x, x ∈ l → ∃ y, f x = Ok y) →
  ∃ k, mapM f l = Ok k ∧ Forall2 (λ x y, f x = Ok y) l k.
Proof.
  induction l as [|x l IH]; intros Hl.
  { exists []. by split; [|constructor]. }
  destruct (Hl x) as [y Hy]; [by left|].
  destruct IH as (k & Hk & HF); [intros z Hz; apply Hl; by right|].
  exists (y :: k). split; [|by constructor].
  simpl. rewrite Hy. simpl. rewrite Hk. done.
Qed.

Section aggregation.
Context {F : Type} `{FloatOrdLaws F}.










(** *** The builtin [min] on the pairs *)









(** *** The sort on the distance *)

Lemma insert_by_distance_perm (x : Z * F * F) (l : list (Z * F * F)) :
  insert_by_distance x l ≡ₚ x :: l.
Proof.
  induction l as [|y l IH]; simpl; [done|].
  destruct (Fltb y.1.2 x.1.2); [|done].
  rewrite IH. apply Permutation_swap.
Qed.

Lemma sort_by_distance_perm (l : list (Z * F * F)) : sort_by_distance l ≡ₚ l.
Proof.
  induction l as [|x l IH]; simpl; [done|].
  by rewrite insert_by_distance_perm, IH.
Qed.




End aggregation.

(** ** Instances of the order laws *)

#[global] Instance Z_eq_laws : FloatEqLaws Z.
Proof. constructor. intros x y. apply Z.eqb_eq. Qed.

#[global] Instance Z_ord_laws : FloatOrdLaws Z.
Proof.
  constructor; simpl.
  - apply Z_eq_laws.
  - apply Z.ltb_irrefl.
  - intros x y z. rewrite !Z.ltb_lt. lia.
  - intros x y. rewrite !Z.ltb_lt. lia.
  - done.
Qed.

(** ** The literal tie of the specification: distances 1,1,2,2,2,3, count 3 *)

(** C4, refuted as stated: on the sorted distances 1,1,2,2,2,3 with count 3
    the function returns the first two voxels, and run again on those two
    with the same count it reports insufficient instead of returning
    them. *)
Lemma select_approx_rerun_insufficient :
  let vp := mkVoxProps [10; 11; 12; 13; 14; 15] [1; 1; 2; 2; 2; 3]%float
              [0; 0; 0; 0; 0; 0]%float in
  let out := mkVoxProps [10; 11] [1; 1]%float [0; 0]%float in
  ascendingb (center_distances vp) = true ∧
  _select_approx vp (Some 3) = Ok (Some out) ∧
  _select_approx out (Some 3) = Ok None ∧
  _select_approx out (Some 3) ≠ Ok (Some out).
Proof. split_and!; [reflexivity..|discriminate]. Qed.

(** A second run that returns its input: count 4 on the same distances
    keeps five voxels, and count 5 on those five returns them. *)
Lemma select_approx_rerun_witness :
  let out := mkVoxProps [10; 11; 12; 13; 14] [1; 1; 2; 2; 2]%float
               [0; 0; 0; 0; 0]%float in
  _select_approx out (Some 5) = Ok (Some out) ∧
  _select_approx out None = Ok (Some out).
Proof.
  exact (select_approx_rerun
           (mkVoxProps [10; 11; 12; 13; 14; 15] [1; 1; 2; 2; 2; 3]%float
              [0; 0; 0; 0; 0; 0]%float)
           (mkVoxProps [10; 11; 12; 13; 14] [1; 1; 2; 2; 2]%float
              [0; 0; 0; 0; 0]%float)
           4 5 eq_refl (proj1 (Z.leb_le 4 5) eq_refl)).
Defined.

(** C5, refuted as stated: the scan does not end with last position 5 and
    delta -1. *)
Lemma select_scan_literal_not_as_stated :
  ¬ ∃ sc, select_scan [1; 1; 2; 2; 2; 3]%float 3 = Ok (Some sc) ∧
          cs_firstpos sc = 2%nat ∧ cs_lastpos sc = 5%nat ∧
          cs_delta sc = -1 ∧ cs_cutpos sc = 2%nat.
Proof.
  intros (sc & Hsc & _ & Hlast & _). vm_compute in Hsc.
  inversion Hsc; subst sc. discriminate Hlast.
Qed.

(** C5 (as amended). On the distances 1,1,2,2,2,3 with count 3 the chunk
    holding the cutoff has first position 2 and last position 4, so
    delta = (3-2)-(4-3) = 0; the tie is broken by the chunk count, which is
    2 and even, so the cut is at position 2 and exactly the first two voxels
    are returned. *)
Theorem select_approx_literal_tie (idxs : list Z) (gmps : list float) :
  select_scan [1; 1; 2; 2; 2; 3]%float 3 = Ok (Some (mkChunkScan 2 4 2 0 2)) ∧
  _select_approx (mkVoxProps idxs [1; 1; 2; 2; 2; 3]%float gmps) (Some 3) =
    Ok (Some (mkVoxProps (take 2 idxs) [1; 1]%float (take 2 gmps))).
Proof. split; reflexivity. Qed.

(** The cut on the whole-number distances 1,1,2,2,2,3 with count 3. *)
Lemma select_approx_cut_at_chunk_witness :
  let vp := mkVoxProps [10; 11; 12; 13; 14; 15] [1; 1; 2; 2; 2; 3]
              [0; 0; 0; 0; 0; 0] in
  ∃ firstpos lastpos cutpos : nat,
    _select_approx vp (Some 3) = Ok (Some (slice_to cutpos vp)) ∧
    is_chunk (center_distances vp) firstpos lastpos ∧
    Z.of_nat firstpos < 3 ≤ Z.of_nat lastpos + 1 ∧
    (cutpos = firstpos ∨ cutpos = (lastpos + 1)%nat) ∧
    length (linear_voxel_indices (slice_to cutpos vp)) = cutpos ∧
    length (center_distances (slice_to cutpos vp)) = cutpos ∧
    length (grey_matter_position (slice_to cutpos vp)) = cutpos ∧
    Z.abs (Z.of_nat cutpos - 3) ≤ Z.of_nat (lastpos - firstpos + 1).
Proof.
  exact (select_approx_cut_at_chunk
           (mkVoxProps [10; 11; 12; 13; 14; 15] [1; 1; 2; 2; 2; 3]
              [0; 0; 0; 0; 0; 0])
           3 eq_refl eq_refl
           (conj (proj1 (Z.leb_le 1 3) eq_refl) (proj1 (Z.leb_le 3 6) eq_refl))).
Defined.


(** ** [disc_voxel_attributes]: the center outside the volume *)

Section outside_margin.
Context {F : Type} `{FloatCmp F, FloatArith F, NumpyCast F}.

Lemma disc_voxel_attributes_inside (self : VoxelSelector F) (src : Z) :
  node_in_vol (_n2v self) src = true →
  disc_voxel_attributes self src = grow_and_finish self src.
Proof.
  intros Hin. unfold disc_voxel_attributes, skips_center. by rewrite Hin.
Qed.

(** The scan of the Dijkstra distances finds a node exactly when one
    exists. *)
Lemma skip_with_margin_finite (self : VoxelSelector F) (src : Z) (m : F) :
  node_in_vol (_n2v self) src = false → Fisinf m = false →
  skip_with_margin self src m = false ↔ inside_node_within self src m.
Proof.
  intros Hsrc Hfin. unfold skip_with_margin, inside_node_within.
  rewrite Hfin, negb_false_iff, existsb_exists. split.
  - intros ([nd d] & Hin & Hok). simpl in Hok.
    apply andb_true_iff in Hok as [Hvol Hle].
    apply list_elem_of_In, elem_of_map_to_list in Hin.
    exists nd, d. split_and!; [|done..]. intros ->. congruence.
  - intros (nd & d & _ & Hd & Hle & Hvol). exists (nd, d). split.
    + by apply list_elem_of_In, elem_of_map_to_list.
    + simpl. by rewrite Hvol, Hle.
Qed.

(** C8. For a center without an entry, or with the entry [None]: with margin
    [None] the call returns the empty list and leaves the optimizer as it
    was, [get_start] not being called; with margin [True] it runs the
    selection that a center inside the volume gets; with a finite float
    margin [m] it runs that selection when some other node within Dijkstra
    distance [m] has an entry that is not [None], and returns the empty list,
    optimizer untouched, when none has. *)
Theorem outside_margin_policy (self : VoxelSelector F) (src : Z) :
  node_in_vol (_n2v self) src = false →
  (∀ src', node_in_vol (_n2v self) src' = true →
     disc_voxel_attributes self src' = grow_and_finish self src') ∧
  (_outside_node_margin self = MarginNone →
     disc_voxel_attributes self src = Ok (SelEmptyList, _optimizer self)) ∧
  (_outside_node_margin self = MarginTrue →
     disc_voxel_attributes self src = grow_and_finish self src) ∧
  (∀ m, _outside_node_margin self = MarginFloat m → Fisinf m = false →
     (inside_node_within self src m →
        disc_voxel_attributes self src = grow_and_finish self src) ∧
     (¬ inside_node_within self src m →
        disc_voxel_attributes self src = Ok (SelEmptyList, _optimizer self))).
Proof.
  intros Hsrc. split; [apply disc_voxel_attributes_inside|].
  unfold disc_voxel_attributes, skips_center. rewrite Hsrc.
  split_and!.
  - by intros ->.
  - by intros ->.
  - intros m -> Hfin.
    pose proof (skip_with_margin_finite self src m Hsrc Hfin) as Hskip.
    destruct (skip_with_margin self src m); split; intros Hw; try done.
    + apply Hskip in Hw. done.
    + destruct Hw. by apply Hskip.
Qed.
End outside_margin.

(** The policy on the two-node surface, node 0 being outside the volume and
    node 1, at distance 10, inside: margin [None] rejects node 0, margin
    10.0 admits it. *)
Lemma outside_margin_policy_witness :
  disc_voxel_attributes (Inputs.built (RadiusFloat 20%float) 10%float MarginNone) 0 =
    Ok (SelEmptyList,
        _optimizer (Inputs.built (RadiusFloat 20%float) 10%float MarginNone)) ∧
  disc_voxel_attributes
    (Inputs.built (RadiusFloat 20%float) 10%float (MarginFloat 10%float)) 0 =
    grow_and_finish
      (Inputs.built (RadiusFloat 20%float) 10%float (MarginFloat 10%float)) 0.
Proof.
  split.
  - exact (proj1 (proj2 (outside_margin_policy
             (Inputs.built (RadiusFloat 20%float) 10%float MarginNone) 0 eq_refl))
             eq_refl).
  - refine (proj1 (proj2 (proj2 (proj2 (outside_margin_policy
             (Inputs.built (RadiusFloat 20%float) 10%float (MarginFloat 10%float))
             0 eq_refl))) 10%float eq_refl eq_refl) _).
    exists 1, 10%float. split; [discriminate|]. split; [reflexivity|].
    split; reflexivity.
Defined.

(** ** [_RadiusOptimizer]: the radius sequence *)

Section optimizer_facts.
Context {F : Type} `{FloatArith F}.

Lemma get_next_initradius (o o' : _RadiusOptimizer F) (r : F) :
  get_next o = Ok (r, o') →
  _initradius o' = _initradius o ∧ _initmult o' = _initmult o.
Proof.
  unfold get_next. destruct (_count o); [|done].
  destruct (_curradius o); [|done]. by inversion 1.
Qed.


End optimizer_facts.

Section radius_sequence_facts.
Context {F : Type} `{FloatCmp F, FloatArith F, NumpyCast F}.

End radius_sequence_facts.



(** ** [disc_voxel_attributes]: leaving the growth loop *)

Section growth_exit.
Context {F : Type} `{FloatCmp F, FloatArith F, NumpyCast F}.

(** Once the loop is left at the last index of the range, by [break] or
    not, the statement that follows raises, and what it raises is the
    [TypeError] of the call on the string literal. *)
Lemma grow_and_finish_at_cap (self : VoxelSelector F) (src : Z) (st : loop_state) :
  growth_loop self src (seq 0 maxiter)
    (mkLoopState 0 (get_start (_optimizer self)).1 None
       (get_start (_optimizer self)).2) = Ok st →
  (maxiter ≤ ls_iter st + 1)%nat →
  grow_and_finish self src = Raise (TypeError "'str' object is not callable").
Proof.
  intros Hloop Hcap. unfold grow_and_finish.
  destruct (get_start (_optimizer self)) as [r o]. cbn [fst snd] in Hloop.
  rewrite Hloop. cbn [mbind result_bind].
  by replace (maxiter <=? ls_iter st + 1)%nat with true
    by (symmetry; by apply Nat.leb_le).
Qed.

(** Left by [break] before the last index, with a selection that holds a
    voxel, the call returns that selection. *)
Lemma grow_and_finish_returns (self : VoxelSelector F) (src : Z)
    (st : loop_state) (va : VoxProps F) :
  growth_loop self src (seq 0 maxiter)
    (mkLoopState 0 (get_start (_optimizer self)).1 None
       (get_start (_optimizer self)).2) = Ok st →
  (ls_iter st + 1 < maxiter)%nat →
  ls_voxel_attributes st = Some va →
  center_distances va ≠ [] →
  grow_and_finish self src = Ok (SelDict va, ls_optimizer st).
Proof.
  intros Hloop Hcap Hva Hne. unfold grow_and_finish.
  destruct (get_start (_optimizer self)) as [r o]. cbn [fst snd] in Hloop.
  rewrite Hloop. cbn [mbind result_bind].
  replace (maxiter <=? ls_iter st + 1)%nat with false
    by (symmetry; apply Nat.leb_gt; lia).
  rewrite Hva. simpl. unfold py_last.
  destruct (last (center_distances va)) eqn:Hlast; [done|].
  by apply last_None in Hlast.
Qed.

(** Left by [break] before the last index with a selection whose arrays are
    empty, the call raises [IndexError]. *)
Lemma grow_and_finish_empty (self : VoxelSelector F) (src : Z)
    (st : loop_state) (va : VoxProps F) :
  growth_loop self src (seq 0 maxiter)
    (mkLoopState 0 (get_start (_optimizer self)).1 None
       (get_start (_optimizer self)).2) = Ok st →
  (ls_iter st + 1 < maxiter)%nat →
  ls_voxel_attributes st = Some va →
  center_distances va = [] →
  grow_and_finish self src = Raise (IndexError "index out of range").
Proof.
  intros Hloop Hcap Hva Hnil. unfold grow_and_finish.
  destruct (get_start (_optimizer self)) as [r o]. cbn [fst snd] in Hloop.
  rewrite Hloop. cbn [mbind result_bind].
  replace (maxiter <=? ls_iter st + 1)%nat with false
    by (symmetry; apply Nat.leb_gt; lia).
  rewrite Hva. simpl. by rewrite Hnil.
Qed.

(** While every trial is insufficient the loop runs to the end of its
    range, multiplying the radius by [_initmult] after each pass. *)
Lemma growth_loop_insufficient (self : VoxelSelector F) (src : Z)
    (iters : list nat) :
  ∀ (st : loop_state) (r : F) (c : Z),
    ls_radius_mm st = r → ls_voxel_attributes st = None →
    _curradius (ls_optimizer st) = Some r → _count (ls_optimizer st) = Some c →
    (∀ k, (k < length iters)%nat →
       growth_step self src
         (Nat.iter k (λ x, Fmul x (_initmult (ls_optimizer st))) r) = Ok None) →
    ∃ st', growth_loop self src iters st = Ok st' ∧
           ls_iter st' = default (ls_iter st) (last iters) ∧
           ls_voxel_attributes st' = None.
Proof.
  induction iters as [|iter rest IH]; intros st r c Hr Hva Hcur Hcnt Hall.
  { by exists st. }
  cbn [growth_loop]. pose proof (Hall 0%nat ltac:(simpl; lia)) as Hfirst.
  cbn [Nat.iter nat_rect] in Hfirst. rewrite Hr, Hfirst.
  cbn [mbind result_bind]. unfold get_next. rewrite Hcnt, Hcur.
  cbn [mbind result_bind fst snd].
  edestruct (IH (mkLoopState iter (Fmul r (_initmult (ls_optimizer st))) None
                   (mkRadiusOptimizer (_initradius (ls_optimizer st))
                      (_initmult (ls_optimizer st))
                      (Some (Fmul r (_initmult (ls_optimizer st)))) (Some (c + 1)))))
    as (st' & Hloop & Hiter & Hva'); [done..| |].
  { intros k Hk. cbn [ls_optimizer _initmult ls_radius_mm].
    replace (Nat.iter k (λ x, Fmul x (_initmult (ls_optimizer st)))
               (Fmul r (_initmult (ls_optimizer st))))
      with (Nat.iter (S k) (λ x, Fmul x (_initmult (ls_optimizer st))) r)
      by exact (Nat.iter_succ_r k
                  (λ x, Fmul x (_initmult (ls_optimizer st))) r).
    apply Hall. simpl. lia. }
  exists st'. split; [done|]. split; [|done].
  cbn [ls_iter] in Hiter. rewrite Hiter.
  destruct rest as [|iter' rest']; [done|].
  rewrite last_cons_cons.
  destruct (last (iter' :: rest')) eqn:Hlast; [done|].
  by apply last_None in Hlast.
Qed.

(** A center whose 100 trials are all insufficient: the call raises the
    [TypeError] of the call on the string literal. *)
Lemma exhausted_growth_raises (self : VoxelSelector F) (src : Z) :
  skips_center self src = false →
  (∀ k, (k < maxiter)%nat →
     growth_step self src
       (Nat.iter k (λ x, Fmul x (_initmult (_optimizer self)))
          (_initradius (_optimizer self))) = Ok None) →
  disc_voxel_attributes self src = Raise (TypeError "'str' object is not callable").
Proof.
  intros Hskip Hall. unfold disc_voxel_attributes. rewrite Hskip.
  destruct (growth_loop_insufficient self src (seq 0 maxiter)
              (mkLoopState 0 (get_start (_optimizer self)).1 None
                 (get_start (_optimizer self)).2)
              (_initradius (_optimizer self)) 0)
    as (st & Hloop & Hiter & _); [done..| |].
  { intros k Hk. rewrite length_seq in Hk. by apply Hall. }
  eapply grow_and_finish_at_cap; [done|].
  rewrite Hiter. vm_compute. lia.
Qed.

(** In fixed-radius mode, a center that is not skipped and whose disc at the
    initial radius holds no voxel: the call raises [IndexError]. *)
Lemma fixed_radius_empty_raises (self : VoxelSelector F) (src : Z)
    (va : VoxProps F) :
  _fixedradius self = true →
  skips_center self src = false →
  nodes2voxel_attributes
    (circlearound_n2d (_surf self) src (_initradius (_optimizer self))
       (_distance_metric self)) (_n2v self) py_min = Ok va →
  center_distances va = [] →
  disc_voxel_attributes self src = Raise (IndexError "index out of range").
Proof.
  intros Hfixed Hskip Hagg Hnil. unfold disc_voxel_attributes. rewrite Hskip.
  eapply (grow_and_finish_empty self src
            (mkLoopState 0 (_initradius (_optimizer self)) (Some va)
               (get_start (_optimizer self)).2) va); [|vm_compute; lia|done|done].
  change (seq 0 maxiter) with (0%nat :: seq 1 99).
  cbn [growth_loop get_start fst snd ls_radius_mm ls_optimizer].
  unfold growth_step. rewrite Hagg. cbn [mbind result_bind].
  unfold select_count. rewrite Hfixed. done.
Qed.
End growth_exit.

(** C1, on a concrete run. Count 4 at node 1 of the two-node surface, whose
    table holds the single voxel 7: all 100 passes end with [None], and the
    call raises [TypeError: 'str' object is not callable] where the
    [ValueError] naming the count and the node was to be built. *)
Theorem exhausted_growth_raises_TypeError :
  Inputs.run_growth (Inputs.built (RadiusInt 4) 10%float MarginNone) 1 =
    Ok (99%nat, None) ∧
  disc_voxel_attributes (Inputs.built (RadiusInt 4) 10%float MarginNone) 1 =
    Raise (TypeError "'str' object is not callable").
Proof. split; vm_compute; reflexivity. Qed.

(** C2, on a concrete run. Count 1 at node 0, outside the volume and
    admitted by margin [True], the only voxel being enclosed by node 1 at
    distance 3e17: the passes 0 to 98 end with [None], pass 99 (the 100th)
    selects the voxel and breaks, and the call raises instead of returning
    it. *)
Theorem success_at_last_pass_raises :
  Inputs.run_growth (Inputs.built (RadiusInt 1) 3e17%float MarginTrue) 0 =
    Ok (99%nat,
        Some (mkVoxProps [7] [Binary64.to_float32 3e17%float] [0.5%float])) ∧
  disc_voxel_attributes (Inputs.built (RadiusInt 1) 3e17%float MarginTrue) 0 =
    Raise (TypeError "'str' object is not callable").
Proof. split; vm_compute; reflexivity. Qed.

(** The same center with node 1 at distance 2e17 is served at pass 98, and
    the voxel is returned. *)
Lemma success_before_last_pass_returns :
  Inputs.run_growth (Inputs.built (RadiusInt 1) 2e17%float MarginTrue) 0 =
    Ok (98%nat,
        Some (mkVoxProps [7] [Binary64.to_float32 2e17%float] [0.5%float])) ∧
  Inputs.run_disc (Inputs.built (RadiusInt 1) 2e17%float MarginTrue) 0 =
    Ok (SelDict (mkVoxProps [7] [Binary64.to_float32 2e17%float] [0.5%float])).
Proof. split; vm_compute; reflexivity. Qed.

(** C3, on a concrete run. Radius 2.0 at node 0, outside the volume and
    admitted by margin [True], node 1 being 10 away: the center is not
    skipped, the first pass selects the attribute dict with three empty
    arrays, and the call raises [IndexError] at
    [voxel_attributes[CENTER_DISTANCES][-1]]. *)
Theorem empty_selection_raises_IndexError :
  skips_center (Inputs.built (RadiusFloat 2%float) 10%float MarginTrue) 0 = false ∧
  Inputs.run_growth (Inputs.built (RadiusFloat 2%float) 10%float MarginTrue) 0 =
    Ok (0%nat, Some (mkVoxProps [] [] [])) ∧
  disc_voxel_attributes (Inputs.built (RadiusFloat 2%float) 10%float MarginTrue) 0 =
    Raise (IndexError "index out of range").
Proof. split_and!; vm_compute; reflexivity. Qed.

(** ** [voxel_selection]: the warning for a run without voxels *)

Section driver_facts.
Context {F : Type} `{FloatCmp F, FloatArith F, NumpyCast F}.

Lemma split_sizes_length {A : Type} (sizes : list nat) :
  ∀ l : list A, length (split_sizes sizes l) = length sizes.
Proof. induction sizes as [|n sizes IH]; intros l; simpl; [done|]. by rewrite IH. Qed.

Lemma array_split_length {A : Type} (l : list A) (nsections : nat) :
  (0 < nsections)%nat → length (array_split l nsections) = nsections.
Proof.
  intros Hn. unfold array_split.
  rewrite split_sizes_length, length_app, !length_replicate.
  pose proof (Nat.mod_upper_bound (length l) nsections). lia.
Qed.

Lemma mapM_result_length {A B : Type} (f : A → result B) (l : list A) :
  ∀ k, mapM f l = Ok k → length k = length l.
Proof.
  induction l as [|x l IH]; intros k Hk; simpl in Hk.
  { by inversion Hk. }
  destruct (f x); simpl in Hk; [|done].
  destruct (mapM f l); simpl in Hk; [|done].
  inversion Hk. simpl. f_equal. by apply IH.
Qed.

Lemma merge_results_Some (results : list (VolumeMaskDictionary F)) :
  ∀ (d : VolumeMaskDictionary F) (i : nat) r,
    merge_results (Some d) i results = Ok r → is_Some r.
Proof.
  induction results as [|x results IH]; intros d i r Hr; simpl in Hr.
  { inversion Hr. by eexists. }
  destruct (i =? 0)%nat; by eapply IH.
Qed.

(** The parallel branch binds [node2volume_attributes] to a dictionary. *)
Lemma run_blocks_Some (env : Collaborators F) (self : VoxelSelector F)
    (src_trg_nodes : list (Z * Z)) (nproc : Z) r :
  1 < nproc → run_blocks env self src_trg_nodes nproc = Ok r → is_Some r.
Proof.
  intros Hn. unfold run_blocks. destruct (pprocess_cores env); [|done].
  destruct (mapM _ _) as [results|] eqn:Hres; simpl; [|done].
  apply mapM_result_length in Hres.
  rewrite array_split_length in Hres by lia.
  destruct results as [|x results]; [simpl in Hres; lia|].
  simpl. apply merge_results_Some.
Qed.

(** No run of [voxel_selection] emits the warning for a run without voxels:
    [node2volume_attributes] is a dictionary on both branches, never
    [None]. *)
Lemma voxel_selection_never_warns_no_voxels (env : Collaborators F)
    (radius : radius_arg F) (source_surf_nodes : option (list Z))
    (distance_metric : string) (nproc : option Z)
    (outside_node_margin : margin F) (n : nat) :
  WarnNoVoxels n ∉
    (voxel_selection env radius source_surf_nodes distance_metric nproc
       outside_node_margin).1.
Proof.
  unfold voxel_selection.
  destruct (VoxelSelector_init _ _ _ _ _ ≫= _) as [[self src_trg]|];
    [|apply not_elem_of_nil].
  assert (Hw : WarnNoVoxels n ∉ (resolve_nproc env nproc).1).
  { unfold resolve_nproc. destruct nproc; [apply not_elem_of_nil|].
    destruct (pprocess_cores env); [apply not_elem_of_nil|].
    simpl. by intros ?%list_elem_of_singleton. }
  destruct (resolve_nproc env nproc) as [warnings nproc']. simpl in Hw.
  destruct (Z.ltb_spec 1 nproc') as [Hlt|Hge].
  - destruct (run_blocks env self src_trg nproc') as [r|] eqn:Hrun; [|done].
    apply run_blocks_Some in Hrun as [d ->]; done.
  - destruct (_reduce_mapper ∅ self src_trg) as [r|]; done.
Qed.
End driver_facts.

(** C9, on a concrete run. Both centers of the two-node surface with an
    empty node-to-voxel table, margin [None], one process: no center gets a
    voxel, the empty dictionary is returned, and no warning is emitted. *)
Theorem no_voxels_no_warning :
  voxel_selection (Inputs.two_node_run ∅) (RadiusFloat 2%float) None "dijkstra"
    (Some 1) MarginNone = ([], Ok (Some ∅)).
Proof. vm_compute. reflexivity. Qed.


(** * Further properties *)

(** ** [_select_approx]: outcome, whole chunks, empty selections *)

Section select_approx_outcome.
Context {F : Type} `{FloatCmp F}.

(** The outcome of [_select_approx] with a count. *)
Lemma select_approx_total (vp : VoxProps F) (count : Z) :
  if (Z.of_nat (length (center_distances vp)) <? count)
     || (length (center_distances vp) =? 0)%nat
  then _select_approx vp (Some count) = Ok None
  else ∃ cutpos : nat,
         (cutpos ≤ length (center_distances vp))%nat ∧
         _select_approx vp (Some count) = Ok (Some (slice_to cutpos vp)).
Proof.
  unfold _select_approx.
  destruct (Z.ltb_spec (Z.of_nat (length (center_distances vp))) count) as [Hlt|Hge].
  { rewrite select_scan_short by (by left). done. }
  destruct (center_distances vp) as [|d ds] eqn:Hds.
  { simpl. by rewrite select_scan_short by (by right). }
  simpl orb. cbv iota.
  destruct (select_scan_idx d ds count) as (s & e & k & Hscan & Hse & Hss).
  { simpl length in Hge. lia. }
  rewrite Hss. apply scan_idx_bounds in Hscan as (_ & Hle & _); [|lia].
  exists (chunk_cutpos count s (e - 1) k). split; [|done].
  simpl length. destruct (chunk_cutpos_cases count s (e - 1) k) as [-> | ->]; lia.
Qed.

(** X1. [_select_approx] with a count never raises: it returns [None]
    exactly when the distances are fewer than the count or there is none,
    and otherwise the input cut to a prefix. *)
Theorem select_approx_never_raises (vp : VoxProps F) (count : Z) :
  if (Z.of_nat (length (center_distances vp)) <? count)
     || (length (center_distances vp) =? 0)%nat
  then _select_approx vp (Some count) = Ok None
  else ∃ cutpos : nat,
         (cutpos ≤ length (center_distances vp))%nat ∧
         _select_approx vp (Some count) = Ok (Some (slice_to cutpos vp)).
Proof. exact (select_approx_total vp count). Qed.

(** The chunk count grows exactly when the chunk moves. *)
Lemma scan_idx_chunkcount (count : Z) (ds : list F) :
  ∀ (i s : nat) (prevd : F) (k : nat) s' e k',
    (s < i)%nat →
    scan_idx count ds i s prevd k = (s', e, k') →
    (s' = s ∧ k' = k) ∨ ((i ≤ s')%nat ∧ (k < k')%nat).
Proof.
  induction ds as [|d ds IH]; intros i s prevd k s' e k' Hsi Hscan; simpl in *.
  { inversion Hscan; subst. by left. }
  destruct ((0 <? i)%nat && negb (Feqb prevd d)).
  - destruct (Z.of_nat i >=? count).
    + inversion Hscan; subst. by left.
    + apply IH in Hscan; [|lia]. right. lia.
  - apply IH in Hscan; [|lia]. destruct Hscan as [?|?]; [by left|right; lia].
Qed.
End select_approx_outcome.

Section select_approx_chunk_cut.
Context {F : Type} `{FloatEqLaws F}.

(** What the scan of a non-empty list with enough distances ends on. *)
Lemma select_scan_chunk (d : F) (ds : list F) (count : Z) :
  count ≤ Z.of_nat (S (length ds)) →
  ∃ s e k : nat,
    select_scan (d :: ds) count =
      Ok (Some (mkChunkScan s (e - 1) k (chunk_delta count s (e - 1))
                  (chunk_cutpos count s (e - 1) k))) ∧
    (s < e ≤ S (length ds))%nat ∧
    is_chunk (d :: ds) s (e - 1) ∧
    (s = 0%nat → k = 1%nat) ∧
    (s = 0%nat ∨ Z.of_nat s < count) ∧
    (e = S (length ds) ∨ count ≤ Z.of_nat e).
Proof.
  intros Hn.
  destruct (select_scan_idx d ds count Hn) as (s & e & k & Hscan & Hse & Hss).
  exists s, e, k. split; [done|].
  pose proof Hscan as Hbd. apply scan_idx_bounds in Hbd as (_ & Hle & Hs & He); [|lia].
  pose proof Hscan as Hcc. apply scan_idx_chunkcount in Hcc; [|lia].
  destruct (scan_idx_chunk (d :: ds) count ds 1 0 d 1 s e k) as (Hrun & Hlo & Hhi);
    [lia|done|done| |lia|done|].
  { intros j Hj. by replace j with 0%nat by lia. }
  split_and!; [lia|lia| | | |].
  - unfold is_chunk. simpl length. split_and!; [lia|lia| | |].
    + intros j Hj. apply Hrun. lia.
    + done.
    + replace (e - 1 + 1)%nat with e by lia. done.
  - intros ->. destruct Hcc as [[_ ->]|[Hs1 _]]; [done|lia].
  - destruct Hs as [->|[_ ?]]; [by left|by right].
  - destruct He as [->|?]; [left; lia|by right].
Qed.

(** X2. Either all voxels of a chunk are selected or none, whatever the
    count: when [_select_approx] returns a selection, it is the input cut at
    a position that is 0, the length, or a place where the distance
    changes. *)
Theorem select_approx_whole_chunks (vp out : VoxProps F) (count : Z) :
  _select_approx vp (Some count) = Ok (Some out) →
  ∃ cutpos : nat,
    out = slice_to cutpos vp ∧
    (cutpos ≤ length (center_distances vp))%nat ∧
    (cutpos = 0%nat ∨ cutpos = length (center_distances vp) ∨
     center_distances vp !! (cutpos - 1)%nat ≠ center_distances vp !! cutpos).
Proof.
  unfold _select_approx. intros Hsel.
  destruct (center_distances vp) as [|d ds] eqn:Hds.
  { rewrite select_scan_short in Hsel by (by right). done. }
  destruct (Z.lt_ge_cases (Z.of_nat (S (length ds))) count) as [Hlt|Hge].
  { rewrite select_scan_short in Hsel by (simpl; lia). done. }
  destruct (select_scan_chunk d ds count ltac:(lia))
    as (s & e & k & Hss & Hse & (Hb & Hrun & Hlo & Hhi) & _ & _ & _).
  rewrite Hss in Hsel. simpl in Hsel. inversion Hsel as [Hout].
  exists (chunk_cutpos count s (e - 1) k). split; [done|].
  simpl length in *.
  destruct (chunk_cutpos_cases count s (e - 1) k) as [-> | ->].
  - replace (e - 1 + 1)%nat with e in * by lia. split; [lia|].
    destruct (decide (e = S (length ds))) as [->|Hne]; [right; by left|].
    right; right. intros Heq. by apply Hhi; [lia|].
  - split; [lia|]. destruct (decide (s = 0%nat)) as [->|Hne]; [by left|].
    right; right. apply Hlo. lia.
Qed.

(** Two chunks that start at one index end at one index. *)
Lemma is_chunk_unique (ds : list F) (s l l' : nat) :
  is_chunk ds s l → is_chunk ds s l' → l = l'.
Proof.
  intros (Hb & Hrun & _ & Hhi) (Hb' & Hrun' & _ & Hhi').
  destruct (Nat.lt_trichotomy l l') as [Hlt|[?|Hlt]]; [|done|].
  - destruct Hhi; [lia|]. by rewrite (Hrun' (l + 1)%nat), (Hrun' l) by lia.
  - destruct Hhi'; [lia|]. by rewrite (Hrun (l' + 1)%nat), (Hrun l') by lia.
Qed.

(** X3. A count of at least 1 can select nothing: with as many distances as
    the count, the selection is empty exactly when the distances equal to
    the smallest one run up to an index beyond twice the count. *)
Theorem select_approx_empty_iff (vp : VoxProps F) (k : Z) (lastpos : nat) :
  1 ≤ k ≤ Z.of_nat (length (center_distances vp)) →
  is_chunk (center_distances vp) 0 lastpos →
  ∃ out, _select_approx vp (Some k) = Ok (Some out) ∧
         (center_distances out = [] ↔ 2 * k < Z.of_nat lastpos).
Proof.
  unfold _select_approx. intros Hk Hfirst.
  destruct (center_distances vp) as [|d ds] eqn:Hds; [simpl in Hk; lia|].
  simpl length in Hk.
  destruct (select_scan_chunk d ds k ltac:(lia))
    as (s & e & c & Hss & Hse & Hchunk & Hc1 & Hs & He).
  rewrite Hss. simpl. eexists. split; [done|].
  cbn [center_distances slice_to]. rewrite Hds. unfold chunk_cutpos, chunk_delta.
  destruct (decide (s = 0%nat)) as [->|Hpos].
  - rewrite Hc1 by done.
    pose proof (is_chunk_unique _ _ _ _ Hfirst Hchunk) as ->.
    destruct (Z.gtb_spec (k - Z.of_nat 0 - (Z.of_nat (e - 1) - k)) 0) as [Hgt|Hle].
    { replace (e - 1 + 1)%nat with (S (e - 1)) by lia. simpl. split; [done|lia]. }
    destruct (Z.ltb_spec (k - Z.of_nat 0 - (Z.of_nat (e - 1) - k)) 0) as [Hlt|Hge].
    { simpl. split; [lia|done]. }
    simpl. replace (e - 1 + 1)%nat with (S (e - 1)) by lia. simpl.
    split; [done|lia].
  - assert (Hbefore : (lastpos < s)%nat).
    { destruct Hfirst as (Hb & Hrun & _ & _), Hchunk as (_ & _ & Hlo & _).
      destruct (decide (s ≤ lastpos)%nat) as [Hle|]; [|lia].
      destruct Hlo; [lia|]. rewrite (Hrun (s - 1)%nat), (Hrun s) by lia. done. }
    assert (Hne : ∀ n : nat, (0 < n)%nat → take n (d :: ds) ≠ []).
    { intros [|n] Hn; [lia|done]. }
    split; [|lia]. intros Hnil. exfalso.
    repeat case_match; (eapply Hne; [|exact Hnil]); lia.
Qed.

(** X4. The number of voxels selected differs from a count between 1 and
    the number of distances by at most half the size of the chunk that
    holds the count-th voxel, rounded up to the next half. *)
Theorem select_approx_half_chunk (vp : VoxProps F) (k : Z) :
  1 ≤ k ≤ Z.of_nat (length (center_distances vp)) →
  ∃ firstpos lastpos cutpos : nat,
    _select_approx vp (Some k) = Ok (Some (slice_to cutpos vp)) ∧
    length (center_distances (slice_to cutpos vp)) = cutpos ∧
    is_chunk (center_distances vp) firstpos lastpos ∧
    Z.of_nat firstpos < k ≤ Z.of_nat lastpos + 1 ∧
    2 * Z.abs (Z.of_nat cutpos - k) ≤ Z.of_nat (lastpos - firstpos + 1) + 1.
Proof.
  unfold _select_approx. intros Hk.
  destruct (center_distances vp) as [|d ds] eqn:Hds; [simpl in Hk; lia|].
  simpl length in Hk.
  destruct (select_scan_chunk d ds k ltac:(lia))
    as (s & e & c & Hss & Hse & Hchunk & _ & Hs & He).
  rewrite Hss. simpl.
  exists s, (e - 1)%nat, (chunk_cutpos k s (e - 1) c).
  split; [done|]. cbn [center_distances slice_to].
  rewrite Hds, length_take. simpl length.
  assert (Hcut : (chunk_cutpos k s (e - 1) c ≤ e)%nat ∧
                 2 * Z.abs (Z.of_nat (chunk_cutpos k s (e - 1) c) - k)
                 ≤ Z.of_nat (e - 1 - s + 1) + 1).
  { unfold chunk_cutpos, chunk_delta.
    destruct (Z.gtb_spec (k - Z.of_nat s - (Z.of_nat (e - 1) - k)) 0); [lia|].
    destruct (Z.ltb_spec (k - Z.of_nat s - (Z.of_nat (e - 1) - k)) 0); [lia|].
    destruct (c mod 2 =? 0)%nat; lia. }
  split_and!; [lia|done|lia|lia|lia].
Qed.
End select_approx_chunk_cut.

(** ** [nodes2voxel_attributes]: without assumptions on the comparisons *)

Section aggregation_any_order.
Context {F : Type} `{FloatCmp F, NumpyCast F}.

Lemma set_add_nonempty (x : F * F) (s : list (F * F)) : set_add x s ≠ [].
Proof.
  unfold set_add. destruct (existsb (tuple_eqb x) s) eqn:Hex.
  - by destruct s.
  - by destruct s.
Qed.

Lemma v2dps_keys_ext (m : gmap Z (list (F * F))) (C C' : Z → Prop) :
  (∀ vx, C vx ↔ C' vx) → v2dps_keys m C → v2dps_keys m C'.
Proof.
  intros Hext Hm vx. specialize (Hm vx). destruct (m !! vx).
  - destruct Hm. split; [done|]. by apply Hext.
  - by rewrite <- Hext.
Qed.

Lemma v2dps_add_keys (m : gmap Z (list (F * F))) (C : Z → Prop)
    (vx : Z) (dp : F * F) :
  v2dps_keys m C → v2dps_keys (v2dps_add vx dp m) (λ vx', C vx' ∨ vx' = vx).
Proof.
  intros Hm vx'. unfold v2dps_add. specialize (Hm vx').
  destruct (decide (vx = vx')) as [->|Hne].
  - rewrite lookup_insert_eq. split; [apply set_add_nonempty|by right].
  - rewrite lookup_insert_ne by done. destruct (m !! vx').
    + destruct Hm. split; [done|by left].
    + intros [?|?]; [done|congruence].
Qed.

Lemma add_voxels_keys (d : F) (l : list (Z * F)) :
  ∀ (m : gmap Z (list (F * F))) (C : Z → Prop),
    v2dps_keys m C →
    v2dps_keys (foldl (λ acc vp, v2dps_add vp.1 (d, vp.2) acc) m l)
      (λ vx, C vx ∨ ∃ pos, (vx, pos) ∈ l).
Proof.
  induction l as [|[vx pos] l IH]; intros m C Hm; simpl.
  - eapply v2dps_keys_ext; [|done]. intros vx. split; [by left|].
    intros [?|[? Hin]]; [done|]. by apply elem_of_nil in Hin.
  - eapply v2dps_keys_ext; [|apply IH, v2dps_add_keys, Hm].
    intros vx'. simpl. split.
    + intros [[?| ->]|[pos' Hin]].
      * by left.
      * right. exists pos. by left.
      * right. exists pos'. by right.
    + intros [?|[pos' Hin]]; [by left; left|].
      apply elem_of_cons in Hin as [Heq|Hin].
      * inversion Heq; subst. left. by right.
      * right. by exists pos'.
Qed.

Lemma collect_nodes_keys (n2v : gmap Z (option (gmap Z F))) (l : list (Z * F)) :
  ∀ (m : gmap Z (list (F * F))) (C : Z → Prop),
    v2dps_keys m C →
    v2dps_keys
      (foldl (λ acc ndd,
                match n2v !! ndd.1 with
                | Some (Some vps) => add_node_voxels ndd.2 vps acc
                | _ => acc
                end) m l)
      (λ vx, C vx ∨
             ∃ nd d vps pos, (nd, d) ∈ l ∧ n2v !! nd = Some (Some vps) ∧
                             vps !! vx = Some pos).
Proof.
  induction l as [|[nd d] l IH]; intros m C Hm; simpl.
  - eapply v2dps_keys_ext; [|done]. intros vx. split; [by left|].
    intros [?|(? & ? & ? & ? & Hin & _)]; [done|]. by apply elem_of_nil in Hin.
  - destruct (n2v !! nd) as [[vps|]|] eqn:Hnd.
    + eapply v2dps_keys_ext; [|apply IH, add_voxels_keys, Hm].
      intros vx. simpl. split.
      * intros [[?|[pos Hpos]]|(nd' & d' & vps' & pos' & Hin & Hv & Hp)].
        -- by left.
        -- apply elem_of_map_to_list in Hpos. right.
           exists nd, d, vps, pos. split_and!; [by left|done..].
        -- right. exists nd', d', vps', pos'. split_and!; [by right|done..].
      * intros [?|(nd' & d' & vps' & pos' & Hin & Hv & Hp)]; [by left; left|].
        apply elem_of_cons in Hin as [Heq|Hin].
        -- inversion Heq; subst. rewrite Hnd in Hv. inversion Hv; subst.
           left. right. exists pos'. by apply elem_of_map_to_list.
        -- right. by exists nd', d', vps', pos'.
    + eapply v2dps_keys_ext; [|apply IH, Hm].
      intros vx. simpl. split.
      * intros [?|(nd' & d' & vps' & pos' & Hin & Hv & Hp)]; [by left|].
        right. exists nd', d', vps', pos'. split_and!; [by right|done..].
      * intros [?|(nd' & d' & vps' & pos' & Hin & Hv & Hp)]; [by left|].
        apply elem_of_cons in Hin as [Heq|Hin].
        -- inversion Heq; subst. congruence.
        -- right. by exists nd', d', vps', pos'.
    + eapply v2dps_keys_ext; [|apply IH, Hm].
      intros vx. simpl. split.
      * intros [?|(nd' & d' & vps' & pos' & Hin & Hv & Hp)]; [by left|].
        right. exists nd', d', vps', pos'. split_and!; [by right|done..].
      * intros [?|(nd' & d' & vps' & pos' & Hin & Hv & Hp)]; [by left|].
        apply elem_of_cons in Hin as [Heq|Hin].
        -- inversion Heq; subst. congruence.
        -- right. by exists nd', d', vps', pos'.
Qed.

Lemma collect_v2dps_keys (n2d : gmap Z F) (n2v : gmap Z (option (gmap Z F))) :
  v2dps_keys (collect_v2dps n2d n2v) (λ vx, ∃ dp, contributes n2d n2v vx dp).
Proof.
  unfold collect_v2dps.
  eapply v2dps_keys_ext; [|apply (collect_nodes_keys n2v _ ∅ (λ _, False))].
  - intros vx. unfold contributes. split.
    + intros [[]|(nd & d & vps & pos & Hin & Hv & Hp)].
      exists (d, pos), nd, vps. by apply elem_of_map_to_list in Hin.
    + intros ([d pos] & nd & vps & Hd & Hv & Hp). right.
      exists nd, d, vps, pos. by apply elem_of_map_to_list in Hd.
  - intros vx. rewrite lookup_empty. tauto.
Qed.

(** The aggregation, for any comparisons. *)
Lemma aggregation_voxels (n2d : gmap Z F)
    (n2v : gmap Z (option (gmap Z F))) :
  ∃ vdp : list (Z * F * F),
    nodes2voxel_attributes n2d n2v py_min =
      Ok (mkVoxProps ((λ t, as_int32 t.1.1) <$> vdp)
                     ((λ t, as_float32 t.1.2) <$> vdp)
                     ((λ t, as_float32 t.2) <$> vdp)) ∧
    NoDup ((λ t, t.1.1) <$> vdp) ∧
    (∀ vx, vx ∈ (λ t, t.1.1) <$> vdp ↔ ∃ dp, contributes n2d n2v vx dp) ∧
    (vdp = [] ↔ ∀ vx dp, ¬ contributes n2d n2v vx dp).
Proof.
  pose proof (collect_v2dps_keys n2d n2v) as Hcol.
  set (v2dps := collect_v2dps n2d n2v) in *.
  destruct (mapM_result_Ok (unpack_dp py_min) (map_to_list v2dps)) as (raw & Hraw & HF).
  { intros [vx dps] Hin. apply elem_of_map_to_list in Hin.
    specialize (Hcol vx). rewrite Hin in Hcol. destruct Hcol as [Hne _].
    destruct dps as [|x dps]; [done|]. by eexists. }
  assert (Hfst : (λ t : Z * F * F, t.1.1) <$> raw = (map_to_list v2dps).*1).
  { clear Hraw. induction HF as [|[vx dps] t l k Hx HF IH]; [done|].
    rewrite !fmap_cons, IH. f_equal. unfold unpack_dp in Hx. simpl in Hx.
    destruct (py_min dps); simpl in Hx; [|done]. by inversion Hx. }
  assert (Hperm : sort_by_distance raw ≡ₚ raw) by apply sort_by_distance_perm.
  assert (Hmem : ∀ vx, vx ∈ (λ t : Z * F * F, t.1.1) <$> sort_by_distance raw ↔
                       ∃ dp, contributes n2d n2v vx dp).
  { intros vx. rewrite Hperm, Hfst. specialize (Hcol vx). split.
    - intros ([vx' dps] & -> & Hin)%list_elem_of_fmap.
      apply elem_of_map_to_list in Hin. simpl in *. rewrite Hin in Hcol.
      by destruct Hcol.
    - intros Hdp. destruct (v2dps !! vx) as [dps|] eqn:Hvx; [|done].
      apply list_elem_of_fmap. exists (vx, dps). split; [done|].
      by apply elem_of_map_to_list. }
  exists (sort_by_distance raw). split_and!.
  - unfold nodes2voxel_attributes. fold v2dps. by rewrite Hraw.
  - rewrite Hperm, Hfst. apply NoDup_fst_map_to_list.
  - done.
  - split.
    + intros Hnil vx dp Hdp. rewrite Hnil in Hmem.
      assert (Hin : vx ∈ (λ t : Z * F * F, t.1.1) <$> []) by (apply Hmem; eauto).
      by apply elem_of_nil in Hin.
    + intros Hnone. destruct (sort_by_distance raw) as [|t l] eqn:Hs; [done|].
      destruct (proj1 (Hmem t.1.1)) as [dp Hdp]; [by left|].
      by destruct (Hnone t.1.1 dp).
Qed.

(** X5. For voxel indices that fit the int32 array they are stored in,
    [nodes2voxel_attributes] with the default [min] never raises, whatever
    the comparisons of the distances give: it returns three arrays of one
    length, the array of voxel indices holds each voxel that a node of the
    distance map encloses exactly once and nothing else, and it is empty
    exactly when no node of the map has a table entry with a voxel. *)
Theorem nodes2voxel_attributes_voxels (n2d : gmap Z F)
    (n2v : gmap Z (option (gmap Z F))) :
  (∀ vx, - 2 ^ 31 ≤ vx < 2 ^ 31 → as_int32 vx = vx) →
  (∀ vx dp, contributes n2d n2v vx dp → - 2 ^ 31 ≤ vx < 2 ^ 31) →
  ∃ va : VoxProps F,
    nodes2voxel_attributes n2d n2v py_min = Ok va ∧
    parallel_arrays va ∧
    NoDup (linear_voxel_indices va) ∧
    (∀ vx, vx ∈ linear_voxel_indices va ↔ ∃ dp, contributes n2d n2v vx dp) ∧
    (linear_voxel_indices va = [] ↔ ∀ vx dp, ¬ contributes n2d n2v vx dp).
Proof.
  intros Hcast Hrange.
  destruct (aggregation_voxels n2d n2v) as (vdp & Hrun & Hnd & Hmem & Hnil).
  assert (Hidx : (λ t : Z * F * F, as_int32 t.1.1) <$> vdp =
                 (λ t : Z * F * F, t.1.1) <$> vdp).
  { apply list_fmap_ext. intros i t Hi. cbn beta.
    destruct (proj1 (Hmem t.1.1)) as [dp Hdp].
    { apply list_elem_of_fmap. exists t. split; [done|].
      apply list_elem_of_lookup. by exists i. }
    apply Hcast. by eapply Hrange. }
  eexists. split; [exact Hrun|]. cbn [linear_voxel_indices]. rewrite Hidx.
  split_and!; [|done|done|].
  - unfold parallel_arrays. cbn. by rewrite !length_fmap.
  - rewrite <- Hnil. by destruct vdp.
Qed.
End aggregation_any_order.

(** ** [nodes2voxel_attributes]: a larger neighbourhood *)

Section aggregation_growth.
Context {F : Type} `{FloatOrdLaws F}.


End aggregation_growth.

(** ** [_RadiusOptimizer]: the attributes bound by [get_start] *)

Section optimizer_bound.
Context {F : Type} `{FloatArith F}.

Lemma run_calls_bound (calls : list optimizer_call) :
  ∀ (o : _RadiusOptimizer F) (r : F) (c : Z),
    _curradius o = Some r → _count o = Some c →
    ∃ o', run_calls calls o = Ok o' ∧
          _initradius o' = _initradius o ∧ _initmult o' = _initmult o ∧
          _count o' = Some (count_after calls c) ∧ is_Some (_curradius o').
Proof.
  induction calls as [|call calls IH]; intros o r c Hr Hc.
  { exists o. by rewrite Hr. }
  destruct call as [| |fr]; cbn [run_calls count_after].
  - destruct (IH (get_start o).2 (_initradius o) 0 eq_refl eq_refl)
      as (o' & Hrun & Hi & Hm & Hcnt & Hcur).
    by exists o'.
  - unfold get_next. rewrite Hc, Hr. cbn [mbind result_bind snd].
    destruct (IH (mkRadiusOptimizer (_initradius o) (_initmult o)
                    (Some (Fmul r (_initmult o))) (Some (c + 1)))
                (Fmul r (_initmult o)) (c + 1) eq_refl eq_refl)
      as (o' & Hrun & Hi & Hm & Hcnt & Hcur).
    by exists o'.
  - by apply (IH (set_final o fr) r c).
Qed.

(** X7. [get_next] raises [AttributeError] on an optimizer that never had
    [get_start] called; after one [get_start], no sequence of [get_start],
    [get_next] and [set_final] calls raises, the initial radius and the
    factor stay as constructed, and [_count] is the number of [get_next]
    calls since the latest [get_start]. *)
Theorem optimizer_after_get_start (initradius : F)
    (calls : list optimizer_call) (o : _RadiusOptimizer F) :
  get_next (_RadiusOptimizer_init initradius) = Raise (AttributeError "_count") ∧
  ∃ o', run_calls (CallGetStart :: calls) o = Ok o' ∧
        _initradius o' = _initradius o ∧ _initmult o' = _initmult o ∧
        _count o' = Some (count_after calls 0) ∧ is_Some (_curradius o').
Proof.
  split; [done|]. cbn [run_calls].
  destruct (run_calls_bound calls (get_start o).2 (_initradius o) 0 eq_refl eq_refl)
    as (o' & Hrun & Hi & Hm & Hcnt & Hcur).
  by exists o'.
Qed.
End optimizer_bound.

(** ** [disc_voxel_attributes]: what a call can give *)

Section selection_outcome.
Context {F : Type} `{FloatCmp F, FloatArith F, NumpyCast F}.

Lemma slice_to_parallel (cut : nat) (va : VoxProps F) :
  parallel_arrays va → parallel_arrays (slice_to cut va).
Proof.
  intros [Hi Hp]. unfold parallel_arrays. simpl.
  rewrite !length_take, Hi, Hp. done.
Qed.

(** A trial of a well-formed selector never raises, and what it selects has
    arrays of one length. *)
Lemma growth_step_total (self : VoxelSelector F) (src : Z) (r : F) :
  well_formed self = true →
  ∃ x, growth_step self src r = Ok x ∧
       ∀ va, x = Some va → parallel_arrays va.
Proof.
  intros Hwf. unfold growth_step.
  destruct (aggregation_voxels
              (circlearound_n2d (_surf self) src r (_distance_metric self))
              (_n2v self)) as (vdp & Hout & _).
  rewrite Hout. cbn [mbind result_bind].
  set (allvx := mkVoxProps _ _ _).
  assert (Hpar : parallel_arrays allvx).
  { unfold parallel_arrays, allvx. simpl. by rewrite !length_fmap. }
  unfold select_count. unfold well_formed in Hwf.
  destruct (_fixedradius self); simpl in Hwf.
  { cbn [mbind result_bind _select_approx]. eexists. split; [done|].
    intros va [= <-]. done. }
  destruct (_targetradius self) as [c| |]; [|done..].
  cbn [mbind result_bind].
  pose proof (select_approx_total allvx c) as Hsel.
  destruct ((Z.of_nat (length (center_distances allvx)) <? c)
            || (length (center_distances allvx) =? 0)%nat).
  - rewrite Hsel. eexists. split; [done|]. by intros va.
  - destruct Hsel as (cut & _ & ->). eexists. split; [done|].
    intros va [= <-]. by apply slice_to_parallel.
Qed.

(** The loop leaves at the first trial that selects something. *)
Lemma growth_loop_first_success (self : VoxelSelector F) (src : Z)
    (va : VoxProps F) (iters : list nat) :
  ∀ (st : loop_state) (r : F) (c : Z) (i iter : nat),
    ls_radius_mm st = r →
    _curradius (ls_optimizer st) = Some r → _count (ls_optimizer st) = Some c →
    iters !! i = Some iter →
    (∀ k, (k < i)%nat →
       growth_step self src
         (Nat.iter k (λ x, Fmul x (_initmult (ls_optimizer st))) r) = Ok None) →
    growth_step self src
      (Nat.iter i (λ x, Fmul x (_initmult (ls_optimizer st))) r) = Ok (Some va) →
    growth_loop self src iters st =
      Ok (mkLoopState iter
            (Nat.iter i (λ x, Fmul x (_initmult (ls_optimizer st))) r) (Some va)
            (mkRadiusOptimizer (_initradius (ls_optimizer st))
               (_initmult (ls_optimizer st))
               (Some (Nat.iter i (λ x, Fmul x (_initmult (ls_optimizer st))) r))
               (Some (c + Z.of_nat i)))).
Proof.
  induction iters as [|it rest IH]; intros st r c i iter Hr Hcur Hcnt Hi Hnone Hsome.
  { done. }
  cbn [growth_loop]. rewrite Hr. destruct i as [|i].
  - cbn [Nat.iter nat_rect] in *. rewrite Hsome. cbn [mbind result_bind].
    inversion Hi; subst it. rewrite Z.add_0_r, <- Hcur, <- Hcnt, <- Hr.
    by destruct st as [? ? ? []].
  - pose proof (Hnone 0%nat ltac:(lia)) as Hfirst.
    cbn [Nat.iter nat_rect] in Hfirst. rewrite Hfirst.
    cbn [mbind result_bind]. unfold get_next. rewrite Hcnt, Hcur.
    cbn [mbind result_bind fst snd].
    set (m := _initmult (ls_optimizer st)) in *.
    assert (Hsucc : ∀ k, Nat.iter (S k) (λ x, Fmul x m) r
                         = Nat.iter k (λ x, Fmul x m) (Fmul r m)).
    { intros k. exact (Nat.iter_succ_r k (λ x, Fmul x m) r). }
    rewrite (IH (mkLoopState it (Fmul r m) None
                   (mkRadiusOptimizer (_initradius (ls_optimizer st)) m
                      (Some (Fmul r m)) (Some (c + 1))))
               (Fmul r m) (c + 1) i iter eq_refl eq_refl eq_refl Hi).
    + cbn [ls_optimizer _initmult _initradius]. rewrite <- Hsucc.
      by replace (c + 1 + Z.of_nat i) with (c + Z.of_nat (S i)) by lia.
    + intros k Hk. cbn [ls_optimizer _initmult]. rewrite <- Hsucc.
      apply Hnone. lia.
    + cbn [ls_optimizer _initmult]. by rewrite <- Hsucc.
Qed.

Lemma growth_loop_from_start (self : VoxelSelector F) (src : Z) (i : nat)
    (va : VoxProps F) :
  (i < maxiter)%nat →
  (∀ k, (k < i)%nat → growth_step self src (trial_radius self k) = Ok None) →
  growth_step self src (trial_radius self i) = Ok (Some va) →
  growth_loop self src (seq 0 maxiter)
    (mkLoopState 0 (get_start (_optimizer self)).1 None
       (get_start (_optimizer self)).2) =
  Ok (mkLoopState i (trial_radius self i) (Some va)
        (mkRadiusOptimizer (_initradius (_optimizer self))
           (_initmult (_optimizer self)) (Some (trial_radius self i))
           (Some (Z.of_nat i)))).
Proof.
  intros Hi Hnone Hsome.
  by rewrite (growth_loop_first_success self src va (seq 0 maxiter)
                (mkLoopState 0 (get_start (_optimizer self)).1 None
                   (get_start (_optimizer self)).2)
                (_initradius (_optimizer self)) 0 i i eq_refl eq_refl eq_refl
                (lookup_seq_lt 0 maxiter i Hi) Hnone Hsome).
Qed.

(** The call when a trial before the last selects a non-empty set. *)
Lemma first_success_returns (self : VoxelSelector F) (src : Z)
    (i : nat) (va : VoxProps F) :
  skips_center self src = false →
  (i + 1 < maxiter)%nat →
  (∀ k, (k < i)%nat → growth_step self src (trial_radius self k) = Ok None) →
  growth_step self src (trial_radius self i) = Ok (Some va) →
  center_distances va ≠ [] →
  disc_voxel_attributes self src =
    Ok (SelDict va,
        mkRadiusOptimizer (_initradius (_optimizer self))
          (_initmult (_optimizer self)) (Some (trial_radius self i))
          (Some (Z.of_nat i))).
Proof.
  intros Hskip Hi Hnone Hsome Hne. unfold disc_voxel_attributes. rewrite Hskip.
  by rewrite (grow_and_finish_returns self src _ va
                (growth_loop_from_start self src i va ltac:(lia) Hnone Hsome)
                Hi eq_refl Hne).
Qed.

(** X11. In the growth loop the first trial that is sufficient wins: when
    the trials before the [i]-th are insufficient, [i] is below 99 and the
    [i]-th trial selects a non-empty set, the call returns that set, with
    the optimizer at the radius of that trial and [_count] at [i]. *)
Theorem first_sufficient_trial_returned (self : VoxelSelector F) (src : Z)
    (i : nat) (va : VoxProps F) :
  skips_center self src = false →
  (i + 1 < maxiter)%nat →
  (∀ k, (k < i)%nat → growth_step self src (trial_radius self k) = Ok None) →
  growth_step self src (trial_radius self i) = Ok (Some va) →
  center_distances va ≠ [] →
  disc_voxel_attributes self src =
    Ok (SelDict va,
        mkRadiusOptimizer (_initradius (_optimizer self))
          (_initmult (_optimizer self)) (Some (trial_radius self i))
          (Some (Z.of_nat i))).
Proof. exact (first_success_returns self src i va). Qed.

(** Among the trials below [n], either all are insufficient or there is a
    first that selects something. *)
Lemma first_success_or_none (self : VoxelSelector F) (src : Z) (n : nat) :
  well_formed self = true →
  (∀ k, (k < n)%nat → growth_step self src (trial_radius self k) = Ok None) ∨
  ∃ i va, (i < n)%nat ∧
          (∀ k, (k < i)%nat → growth_step self src (trial_radius self k) = Ok None) ∧
          growth_step self src (trial_radius self i) = Ok (Some va) ∧
          parallel_arrays va.
Proof.
  intros Hwf. induction n as [|n IH]; [left; intros k Hk; lia|].
  destruct IH as [Hnone|(i & va & Hi & Hnone & Hsome & Hpar)].
  - destruct (growth_step_total self src (trial_radius self n) Hwf) as ([va|] & Hx & Hpar).
    + right. exists n, va. split_and!; [lia|done|done|by apply Hpar].
    + left. intros k Hk. destruct (decide (k = n)) as [->|]; [done|]. apply Hnone. lia.
  - right. exists i, va. split_and!; [lia|done..].
Qed.

(** The three ways the search of a well-formed selector ends. *)
Lemma grow_and_finish_cases (self : VoxelSelector F) (src : Z) :
  well_formed self = true →
  (∃ va o, grow_and_finish self src = Ok (SelDict va, o) ∧
           center_distances va ≠ [] ∧ parallel_arrays va ∧
           _initradius o = _initradius (_optimizer self) ∧
           _initmult o = _initmult (_optimizer self)) ∨
  grow_and_finish self src = Raise (IndexError "index out of range") ∨
  grow_and_finish self src = Raise (TypeError "'str' object is not callable").
Proof.
  intros Hwf.
  destruct (first_success_or_none self src maxiter Hwf)
    as [Hnone|(i & va & Hi & Hnone & Hsome & Hpar)].
  - right; right.
    destruct (growth_loop_insufficient self src (seq 0 maxiter)
                (mkLoopState 0 (get_start (_optimizer self)).1 None
                   (get_start (_optimizer self)).2)
                (_initradius (_optimizer self)) 0)
      as (st & Hloop & Hiter & _); [done..| |].
    { intros k Hk. rewrite length_seq in Hk. by apply Hnone. }
    eapply grow_and_finish_at_cap; [done|]. rewrite Hiter. vm_compute. lia.
  - pose proof (growth_loop_from_start self src i va Hi Hnone Hsome) as Hloop.
    destruct (decide (i + 1 < maxiter)%nat) as [Hlt|Hge].
    + destruct (center_distances va) as [|d ds] eqn:Hds.
      * right; left. by eapply grow_and_finish_empty.
      * left. eexists va, _. split_and!;
          [eapply grow_and_finish_returns; [done|done|done|by rewrite Hds]
          |by rewrite Hds|done|done|done].
    + right; right. eapply grow_and_finish_at_cap; [done|]. simpl. lia.
Qed.

(** What a call of a well-formed selector returns. *)
Lemma disc_returns_shape (self : VoxelSelector F) (src : Z)
    (v : selection F) (o : _RadiusOptimizer F) :
  well_formed self = true →
  disc_voxel_attributes self src = Ok (v, o) →
  (skips_center self src = true ∧ v = SelEmptyList ∧ o = _optimizer self) ∨
  (skips_center self src = false ∧
   ∃ va, v = SelDict va ∧ center_distances va ≠ [] ∧ parallel_arrays va ∧
         _initradius o = _initradius (_optimizer self) ∧
         _initmult o = _initmult (_optimizer self)).
Proof.
  intros Hwf. unfold disc_voxel_attributes.
  destruct (skips_center self src).
  { intros [= <- <-]. by left. }
  intros Hres. right. split; [done|].
  destruct (grow_and_finish_cases self src Hwf)
    as [(va & o' & Hok & Hne & Hpar & Hi & Hm)|[Herr|Herr]];
    rewrite Hres in *; [|done..].
  inversion Hok; subst. by exists va.
Qed.

(** X8. On a well-formed selector a call that returns gives either the list
    [[]], exactly for a center it skips and with the optimizer untouched, or
    an attribute dict whose three arrays have one length and hold at least
    one voxel; it never returns [None], and the optimizer keeps its initial
    radius and factor. *)
Theorem disc_voxel_attributes_returns (self : VoxelSelector F) (src : Z)
    (v : selection F) (o : _RadiusOptimizer F) :
  well_formed self = true →
  disc_voxel_attributes self src = Ok (v, o) →
  (skips_center self src = true ∧ v = SelEmptyList ∧ o = _optimizer self) ∨
  (skips_center self src = false ∧
   ∃ va, v = SelDict va ∧ center_distances va ≠ [] ∧ parallel_arrays va ∧
         _initradius o = _initradius (_optimizer self) ∧
         _initmult o = _initmult (_optimizer self)).
Proof. exact (disc_returns_shape self src v o). Qed.

(** X9. On a well-formed selector a call raises nothing but the
    [IndexError] of an empty selection and the [TypeError] of the malformed
    [raise]: no [ValueError], [KeyError] or [AttributeError] leaves it. *)
Theorem disc_voxel_attributes_raises (self : VoxelSelector F) (src : Z) (e : exn) :
  well_formed self = true →
  disc_voxel_attributes self src = Raise e →
  e = IndexError "index out of range" ∨
  e = TypeError "'str' object is not callable".
Proof.
  intros Hwf. unfold disc_voxel_attributes.
  destruct (skips_center self src); [done|]. intros Hres.
  destruct (grow_and_finish_cases self src Hwf)
    as [(va & o' & Hok & _)|[Herr|Herr]];
    rewrite Hres in *; [done|left|right]; by inversion Herr.
Qed.

(** What [__init__] returns is well formed. *)
Lemma VoxelSelector_init_well_formed (radius : radius_arg F) (surf : Surface F)
    (n2v : gmap Z (option (gmap Z F))) (distance_metric : string)
    (outside_node_margin : margin F) (self : VoxelSelector F) :
  VoxelSelector_init radius surf n2v distance_metric outside_node_margin = Ok self →
  well_formed self = true.
Proof.
  unfold VoxelSelector_init. destruct radius as [c|r|]; simpl; [| |done].
  - destruct (py_sqrt_of_int c); simpl; [|done]. by intros [= <-].
  - by intros [= <-].
Qed.

(** X10. In fixed-radius mode the search is one trial at the given radius:
    a center that is not skipped gets every voxel the aggregation finds
    there, untruncated, [get_next] is never called, and the call raises
    exactly when the aggregation is empty. *)
Theorem fixed_radius_single_trial (self : VoxelSelector F) (src : Z) :
  _fixedradius self = true →
  skips_center self src = false →
  ∃ va,
    nodes2voxel_attributes
      (circlearound_n2d (_surf self) src (_initradius (_optimizer self))
         (_distance_metric self)) (_n2v self) py_min = Ok va ∧
    parallel_arrays va ∧
    disc_voxel_attributes self src =
      match center_distances va with
      | [] => Raise (IndexError "index out of range")
      | _ :: _ => Ok (SelDict va, (get_start (_optimizer self)).2)
      end.
Proof.
  intros Hfixed Hskip.
  destruct (aggregation_voxels
              (circlearound_n2d (_surf self) src (_initradius (_optimizer self))
                 (_distance_metric self)) (_n2v self)) as (vdp & Hout & _).
  eexists. split; [done|]. split.
  { unfold parallel_arrays. simpl. by rewrite !length_fmap. }
  set (va := mkVoxProps _ _ _) in *.
  destruct (center_distances va) as [|d ds] eqn:Hds.
  { by eapply fixed_radius_empty_raises. }
  rewrite (first_success_returns self src 0 va Hskip);
    [done|vm_compute; lia|intros k Hk; lia| |by rewrite Hds].
  unfold growth_step, trial_radius. cbn [Nat.iter nat_rect].
  rewrite Hout. cbn [mbind result_bind]. unfold select_count. by rewrite Hfixed.
Qed.

(** X12. With an infinite float margin, a center outside the volume is
    searched exactly when some node of the table has an entry that is not
    [None]; otherwise the call returns the empty list and leaves the
    optimizer untouched. *)
Theorem infinite_margin_policy (self : VoxelSelector F) (src : Z) (m : F) :
  node_in_vol (_n2v self) src = false →
  _outside_node_margin self = MarginFloat m →
  Fisinf m = true →
  ((∃ nd, node_in_vol (_n2v self) nd = true) →
     disc_voxel_attributes self src = grow_and_finish self src) ∧
  ((∀ nd, node_in_vol (_n2v self) nd = false) →
     disc_voxel_attributes self src = Ok (SelEmptyList, _optimizer self)).
Proof.
  intros Hsrc Hmargin Hinf.
  unfold disc_voxel_attributes, skips_center, skip_with_margin.
  rewrite Hsrc, Hmargin, Hinf. split.
  - intros [nd Hnd].
    assert (Hex : existsb (λ ndv, node_in_vol (_n2v self) ndv.1)
                    (map_to_list (_n2v self)) = true).
    { apply existsb_exists. unfold node_in_vol in Hnd.
      destruct (_n2v self !! nd) as [entry|] eqn:Hl; [|done].
      exists (nd, entry). split.
      - by apply list_elem_of_In, elem_of_map_to_list.
      - simpl. unfold node_in_vol. by rewrite Hl. }
    by rewrite Hex.
  - intros Hnone.
    assert (Hex : existsb (λ ndv, node_in_vol (_n2v self) ndv.1)
                    (map_to_list (_n2v self)) = false).
    { apply not_true_is_false. intros ([nd entry] & _ & Hv)%existsb_exists.
      simpl in Hv. by rewrite Hnone in Hv. }
    by rewrite Hex.
Qed.

Lemma growth_step_with_optimizer (self : VoxelSelector F)
    (o : _RadiusOptimizer F) (src : Z) (r : F) :
  growth_step (with_optimizer self o) src r = growth_step self src r.
Proof. done. Qed.

Lemma growth_loop_with_optimizer (self : VoxelSelector F)
    (o : _RadiusOptimizer F) (src : Z) (iters : list nat) :
  ∀ st, growth_loop (with_optimizer self o) src iters st
        = growth_loop self src iters st.
Proof.
  induction iters as [|iter rest IH]; intros st; [done|].
  cbn [growth_loop]. rewrite growth_step_with_optimizer.
  destruct (growth_step self src (ls_radius_mm st)) as [[va|]|]; [done| |done].
  cbn [mbind result_bind]. destruct (get_next (ls_optimizer st)); [|done].
  cbn [mbind result_bind]. apply IH.
Qed.

(** The optimizer's history does not reach the result. *)
Lemma disc_history (self : VoxelSelector F)
    (o : _RadiusOptimizer F) (src : Z) :
  _initradius o = _initradius (_optimizer self) →
  _initmult o = _initmult (_optimizer self) →
  returned (disc_voxel_attributes (with_optimizer self o) src) =
  returned (disc_voxel_attributes self src).
Proof.
  intros Hi Hm. unfold disc_voxel_attributes.
  change (skips_center (with_optimizer self o) src) with (skips_center self src).
  destruct (skips_center self src); [done|].
  f_equal. unfold grow_and_finish.
  change (_optimizer (with_optimizer self o)) with o.
  change (_targetradius (with_optimizer self o)) with (_targetradius self).
  unfold get_start. rewrite Hi, Hm.
  by rewrite growth_loop_with_optimizer.
Qed.

(** X13. What a call returns or raises does not depend on what the
    optimizer went through before: with any optimizer that has the same
    initial radius and factor in its place, the selector gives the same
    value for the same center. *)
Theorem disc_voxel_attributes_any_history (self : VoxelSelector F)
    (o : _RadiusOptimizer F) (src : Z) :
  _initradius o = _initradius (_optimizer self) →
  _initmult o = _initmult (_optimizer self) →
  returned (disc_voxel_attributes (with_optimizer self o) src) =
  returned (disc_voxel_attributes self src).
Proof. exact (disc_history self o src). Qed.
End selection_outcome.

(** ** The driver: what a run stores *)

Section driver_entries.
Context {F : Type} `{FloatCmp F, FloatArith F, NumpyCast F}.

Lemma growth_loop_keeps_initradius (self : VoxelSelector F) (src : Z)
    (iters : list nat) :
  ∀ st st', growth_loop self src iters st = Ok st' →
    _initradius (ls_optimizer st') = _initradius (ls_optimizer st) ∧
    _initmult (ls_optimizer st') = _initmult (ls_optimizer st).
Proof.
  induction iters as [|iter rest IH]; intros st st' Hloop; cbn [growth_loop] in Hloop.
  { by inversion Hloop. }
  destruct (growth_step self src (ls_radius_mm st)) as [[va|]|];
    cbn [mbind result_bind] in Hloop; [by inversion Hloop| |done].
  destruct (get_next (ls_optimizer st)) as [[r o]|] eqn:Hnext;
    cbn [mbind result_bind] in Hloop; [|done].
  apply IH in Hloop. cbn [ls_optimizer fst snd] in Hloop.
  apply get_next_initradius in Hnext. destruct Hloop, Hnext. split; congruence.
Qed.

(** A call leaves the initial radius and the factor of the optimizer as
    they were. *)
Lemma disc_keeps_initradius (self : VoxelSelector F) (src : Z)
    (v : selection F) (o : _RadiusOptimizer F) :
  disc_voxel_attributes self src = Ok (v, o) →
  _initradius o = _initradius (_optimizer self) ∧
  _initmult o = _initmult (_optimizer self).
Proof.
  unfold disc_voxel_attributes. destruct (skips_center self src).
  { by intros [= <- <-]. }
  unfold grow_and_finish. cbn [get_start].
  destruct (growth_loop _ _ _ _) as [st|] eqn:Hloop; cbn [mbind result_bind]; [|done].
  apply growth_loop_keeps_initradius in Hloop. cbn [ls_optimizer _initradius _initmult] in Hloop.
  destruct (maxiter <=? ls_iter st + 1)%nat; [done|].
  destruct (py_bool _).
  - destruct (subscript_center_distances _) as [ds|]; cbn [mbind result_bind]; [|done].
    destruct (py_last ds); cbn [mbind result_bind]; [|done].
    by intros [= <- <-].
  - cbn [mbind result_bind]. by intros [= <- <-].
Qed.

Lemma with_optimizer_same (self : VoxelSelector F) :
  with_optimizer self (_optimizer self) = self.
Proof. by destruct self. Qed.

(** One call of [attribute_mapper] on a selector whose optimizer has a
    history. *)
Lemma mapper_history (self : VoxelSelector F) (o : _RadiusOptimizer F) (trg : Z) :
  _initradius o = _initradius (_optimizer self) →
  _initmult o = _initmult (_optimizer self) →
  match disc_voxel_indices_and_attributes (with_optimizer self o) trg with
  | Ok eo => center_entry self trg = Ok eo.1 ∧
             _initradius eo.2 = _initradius (_optimizer self) ∧
             _initmult eo.2 = _initmult (_optimizer self)
  | Raise x => center_entry self trg = Raise x
  end.
Proof.
  intros Hi Hm. pose proof (disc_history self o trg Hi Hm) as Hh.
  unfold center_entry, disc_voxel_indices_and_attributes.
  destruct (disc_voxel_attributes (with_optimizer self o) trg) as [[v o']|e] eqn:Hd,
    (disc_voxel_attributes self trg) as [[v' o'']|e'] eqn:Hd';
    cbn [returned fst] in Hh; try done.
  2:{ inversion Hh. done. }
  inversion Hh; subst v'. cbn [mbind result_bind fst snd].
  apply disc_keeps_initradius in Hd as [Hi' Hm'].
  cbn [_optimizer with_optimizer] in Hi', Hm'.
  destruct (py_bool v); cbn [negb].
  - destruct v as [| |va]; [done..|]. cbn [returned fst snd].
    split_and!; [done|congruence..].
  - cbn [returned fst snd]. split_and!; [done|congruence..].
Qed.

Lemma entry_of_pair (self : VoxelSelector F) (src trg : Z) :
  entry_of self (src, trg) = (e ← center_entry self trg; Ok (src, e)).
Proof. done. Qed.

Lemma mapM_result_cons {A B : Type} (f : A → result B) (x : A) (l : list A) :
  mapM f (x :: l) = (y ← f x; k ← mapM f l; Ok (y :: k)).
Proof. done. Qed.

(** [_reduce_mapper] stores the entries of its centers, whatever the
    optimizer went through. *)
Lemma reduce_mapper_entries (self : VoxelSelector F) (l : list (Z * Z)) :
  ∀ (d : VolumeMaskDictionary F) (o : _RadiusOptimizer F),
    _initradius o = _initradius (_optimizer self) →
    _initmult o = _initmult (_optimizer self) →
    returned (_reduce_mapper d (with_optimizer self o) l) =
    (es ← mapM (entry_of self) l; Ok (insert_entries d es)).
Proof.
  induction l as [|[src trg] l IH]; intros d o Hi Hm; [done|].
  rewrite mapM_result_cons, entry_of_pair. cbn [_reduce_mapper].
  pose proof (mapper_history self o trg Hi Hm) as Hh.
  cbn [fst snd].
  destruct (disc_voxel_indices_and_attributes (with_optimizer self o) trg)
    as [[e o']|x].
  - destruct Hh as (Hc & Hi' & Hm'). rewrite Hc.
    cbn [mbind result_bind fst snd] in *.
    change (with_optimizer (with_optimizer self o) o') with (with_optimizer self o').
    rewrite IH by done.
    destruct (mapM (entry_of self) l) as [es|]; [|done].
    cbn [mbind result_bind]. by destruct e as [[idxs misc]|].
  - by rewrite Hh.
Qed.

Lemma insert_entries_cons (d : VolumeMaskDictionary F) (s : Z)
    (e : option (list Z * MiscAttrs F))
    (es : list (Z * option (list Z * MiscAttrs F))) :
  insert_entries d ((s, e) :: es) =
  insert_entries
    (match e with Some (idxs, misc) => vmd_add s idxs misc d | None => d end) es.
Proof. done. Qed.

Lemma insert_entries_other (es : list (Z * option (list Z * MiscAttrs F))) :
  ∀ (d : VolumeMaskDictionary F) (src : Z),
    src ∉ es.*1 → insert_entries d es !! src = d !! src.
Proof.
  induction es as [|[s e] es IH]; intros d src Hnot; [done|].
  rewrite fmap_cons, not_elem_of_cons in Hnot. destruct Hnot as [Hne Hnot].
  rewrite insert_entries_cons, IH by done. destruct e as [[idxs misc]|]; [|done].
  unfold vmd_add. by rewrite lookup_insert_ne.
Qed.

Lemma insert_entries_lookup (es : list (Z * option (list Z * MiscAttrs F))) :
  ∀ (d : VolumeMaskDictionary F) (src : Z) (e : option (list Z * MiscAttrs F)),
    functional es → (src, e) ∈ es →
    insert_entries d es !! src = match e with Some v => Some v | None => d !! src end.
Proof.
  induction es as [|[s0 e0] es IH]; intros d src e Hfun Hin.
  { by apply elem_of_nil in Hin. }
  assert (Hfun' : functional es).
  { intros a b b' Hb Hb'. eapply Hfun; by right. }
  rewrite insert_entries_cons.
  destruct (decide (src ∈ es.*1)) as [Hsrc|Hsrc].
  - apply list_elem_of_fmap in Hsrc as ([s' e'] & Heq & Hin'). simpl in Heq. subst s'.
    assert (e' = e) as -> by (eapply Hfun; [by right|done]).
    rewrite (IH _ src e Hfun' Hin'). destruct e as [v|]; [done|].
    destruct e0 as [[idxs misc]|]; [|done].
    destruct (decide (s0 = src)) as [->|Hne].
    + assert (Some (idxs, misc) = None) by (eapply Hfun; [by left|by right]). done.
    + unfold vmd_add. by rewrite lookup_insert_ne.
  - rewrite insert_entries_other by done.
    apply elem_of_cons in Hin as [[= -> ->]|Hin].
    + destruct e0 as [[idxs misc]|]; [|done]. unfold vmd_add. by rewrite lookup_insert_eq.
    + destruct Hsrc. apply list_elem_of_fmap. by exists (src, e).
Qed.

(** What a dictionary filled from the empty one holds. *)
Lemma insert_entries_empty (es : list (Z * option (list Z * MiscAttrs F)))
    (src : Z) (v : list Z * MiscAttrs F) :
  functional es →
  insert_entries ∅ es !! src = Some v ↔ (src, Some v) ∈ es.
Proof.
  intros Hfun. destruct (decide (src ∈ es.*1)) as [Hsrc|Hsrc].
  - apply list_elem_of_fmap in Hsrc as ([s' e'] & Heq & Hin'). simpl in Heq. subst s'.
    rewrite (insert_entries_lookup es ∅ src e' Hfun Hin'). split.
    + destruct e'; [by intros [= ->]|by rewrite lookup_empty].
    + intros Hin. by rewrite (Hfun _ _ _ Hin' Hin).
  - rewrite insert_entries_other, lookup_empty by done. split; [done|].
    intros Hin. destruct Hsrc. apply list_elem_of_fmap. by exists (src, Some v).
Qed.
End driver_entries.

(** ** The driver: a run in terms of its entries *)

Section result_lists.
Context {A B : Type}.

Lemma mapM_result_app (f : A → result B) (l1 l2 : list A) :
  mapM f (l1 ++ l2) = (k1 ← mapM f l1; k2 ← mapM f l2; Ok (k1 ++ k2)).
Proof.
  induction l1 as [|x l1 IH].
  { simpl. by destruct (mapM f l2). }
  rewrite <- app_comm_cons, !mapM_result_cons, IH.
  destruct (f x) as [y|]; [|done]. cbn [mbind result_bind].
  destruct (mapM f l1) as [k1|]; [|done]. cbn [mbind result_bind].
  by destruct (mapM f l2).
Qed.

Lemma mapM_result_Forall2 (f : A → result B) (l : list A) :
  ∀ k, mapM f l = Ok k → Forall2 (λ x y, f x = Ok y) l k.
Proof.
  induction l as [|x l IH]; intros k Hk.
  { inversion Hk. constructor. }
  rewrite mapM_result_cons in Hk.
  destruct (f x) as [y|] eqn:Hy; [|done]. cbn [mbind result_bind] in Hk.
  destruct (mapM f l) as [k0|]; [|done]. inversion Hk. constructor; [done|].
  by apply IH.
Qed.

Lemma mapM_result_perm (f : A → result B) (l l' : list A) :
  l ≡ₚ l' → ∀ k, mapM f l = Ok k → ∃ k', mapM f l' = Ok k' ∧ k ≡ₚ k'.
Proof.
  induction 1 as [|x l l' Hp IH|x y l|l l' l'' Hp IH Hp' IH']; intros k Hk.
  - by exists k.
  - rewrite mapM_result_cons in Hk. rewrite mapM_result_cons.
    destruct (f x) as [x'|]; [|done]. cbn [mbind result_bind] in *.
    destruct (mapM f l) as [k0|]; [|done].
    destruct (IH k0 eq_refl) as (k0' & -> & Hk0). inversion Hk; subst k.
    eexists. split; [done|]. by rewrite Hk0.
  - rewrite !mapM_result_cons in Hk. rewrite !mapM_result_cons.
    destruct (f x) as [x'|], (f y) as [y'|]; try done.
    cbn [mbind result_bind] in *.
    destruct (mapM f l) as [k0|]; [|done]. inversion Hk; subst k.
    eexists. split; [done|]. apply Permutation_swap.
  - destruct (IH k Hk) as (k' & Hk' & Hkk').
    destruct (IH' k' Hk') as (k'' & Hk'' & Hkk'').
    exists k''. split; [done|]. by rewrite Hkk'.
Qed.

Lemma split_sizes_concat (sizes : list nat) :
  ∀ l : list A, (length l ≤ sum_list sizes)%nat → concat (split_sizes sizes l) = l.
Proof.
  induction sizes as [|n sizes IH]; intros l Hl; simpl in *.
  { destruct l; [done|simpl in Hl; lia]. }
  rewrite IH; [apply take_drop|]. rewrite length_drop. lia.
Qed.

Lemma sum_list_append (l1 l2 : list nat) :
  sum_list (l1 ++ l2) = (sum_list l1 + sum_list l2)%nat.
Proof. induction l1 as [|n l1 IH]; simpl; [done|]. rewrite IH. lia. Qed.

(** The blocks of [array_split] are the list, cut in pieces. *)
Lemma array_split_concat (l : list A) (nsections : nat) :
  (0 < nsections)%nat → concat (array_split l nsections) = l.
Proof.
  intros Hn. unfold array_split. apply split_sizes_concat.
  rewrite sum_list_append, !sum_list_replicate.
  pose proof (Nat.div_mod_eq (length l) nsections).
  pose proof (Nat.mod_upper_bound (length l) nsections). nia.
Qed.
End result_lists.

Section run_entries.
Context {F : Type} `{FloatCmp F, FloatArith F, NumpyCast F}.

Lemma mapM_result_ext {A B : Type} (f g : A → result B) (l : list A) :
  (∀ x, f x = g x) → mapM f l = mapM g l.
Proof.
  intros Hfg. induction l as [|x l IH]; [done|].
  by rewrite !mapM_result_cons, Hfg, IH.
Qed.

Lemma Forall2_elem_of_r {A B : Type} (P : A → B → Prop) (l : list A)
    (k : list B) (y : B) :
  Forall2 P l k → y ∈ k → ∃ x, x ∈ l ∧ P x y.
Proof.
  intros HF [i Hi]%list_elem_of_lookup.
  destruct (Forall2_lookup_r _ _ _ _ _ HF Hi) as (x & Hx & HP).
  exists x. split; [|done]. apply list_elem_of_lookup. by exists i.
Qed.

Lemma Forall2_elem_of_l {A B : Type} (P : A → B → Prop) (l : list A)
    (k : list B) (x : A) :
  Forall2 P l k → x ∈ l → ∃ y, y ∈ k ∧ P x y.
Proof.
  intros HF [i Hi]%list_elem_of_lookup.
  destruct (Forall2_lookup_l _ _ _ _ _ HF Hi) as (y & Hy & HP).
  exists y. split; [|done]. apply list_elem_of_lookup. by exists i.
Qed.

(** The pairs of a run: each center comes with its node on the
    intermediate surface, and is one of the centers given. *)
Lemma src_trg_of_spec (env : Collaborators F) (nodes : option (list Z))
    (l : list (Z * Z)) :
  src_trg_of env nodes = Ok l →
  ∀ src trg, (src, trg) ∈ l ↔
    src2intermediate env !! src = Some trg ∧
    ∃ i node, random_permutation env !! i = Some node ∧
              centers env nodes !! node = Some src.
Proof.
  unfold src_trg_of. intros Hl.
  destruct (mapM _ (random_permutation env)) as [srcs|] eqn:Hsrcs;
    cbn [mbind result_bind] in Hl; [|done].
  apply mapM_result_Forall2 in Hsrcs, Hl. intros src trg. split.
  - intros Hin. destruct (Forall2_elem_of_r _ _ _ _ Hl Hin) as (src' & Hsrc' & Hst).
    destruct (src2intermediate env !! src') as [trg'|] eqn:Ht; [|done].
    inversion Hst; subst src' trg'. split; [done|].
    destruct (Forall2_elem_of_r _ _ _ _ Hsrcs Hsrc') as (node & Hnode & Hc).
    apply list_elem_of_lookup in Hnode as [i Hi]. exists i, node. split; [done|].
    by destruct (centers env nodes !! node) as [src''|]; [inversion Hc|].
  - intros (Ht & i & node & Hi & Hc).
    assert (Hnode : node ∈ random_permutation env)
      by (apply list_elem_of_lookup; by exists i).
    destruct (Forall2_elem_of_l _ _ _ _ Hsrcs Hnode) as (src' & Hsrc' & Hst).
    rewrite Hc in Hst. inversion Hst; subst src'.
    destruct (Forall2_elem_of_l _ _ _ _ Hl Hsrc') as (st & Hin & Hst').
    rewrite Ht in Hst'. by inversion Hst'; subst st.
Qed.

Lemma src_trg_of_functional (env : Collaborators F) (nodes : option (list Z))
    (l : list (Z * Z)) :
  src_trg_of env nodes = Ok l → functional l.
Proof.
  intros Hl src trg trg' Hin Hin'.
  apply (src_trg_of_spec env nodes l Hl) in Hin as [Ht _], Hin' as [Ht' _].
  congruence.
Qed.

(** The entries of a list of centers. *)
Lemma entries_spec (self : VoxelSelector F) (l : list (Z * Z))
    (es : list (Z * option (list Z * MiscAttrs F))) :
  mapM (entry_of self) l = Ok es →
  ∀ src e, (src, e) ∈ es ↔ ∃ trg, (src, trg) ∈ l ∧ center_entry self trg = Ok e.
Proof.
  intros Hes%mapM_result_Forall2 src e. split.
  - intros Hin. destruct (Forall2_elem_of_r _ _ _ _ Hes Hin) as ([src' trg] & Hst & He).
    rewrite entry_of_pair in He.
    destruct (center_entry self trg) as [e'|] eqn:Hce; [|done].
    inversion He; subst. by exists trg.
  - intros (trg & Hin & He).
    destruct (Forall2_elem_of_l _ _ _ _ Hes Hin) as (se & Hse & Hst).
    rewrite entry_of_pair, He in Hst. by inversion Hst; subst se.
Qed.

Lemma entries_functional (self : VoxelSelector F) (l : list (Z * Z))
    (es : list (Z * option (list Z * MiscAttrs F))) :
  functional l → mapM (entry_of self) l = Ok es → functional es.
Proof.
  intros Hfun Hes src e e' Hin Hin'.
  apply (entries_spec self l es Hes) in Hin as (trg & Hl & He),
    Hin' as (trg' & Hl' & He').
  rewrite (Hfun _ _ _ Hl Hl') in He. congruence.
Qed.

Lemma functional_app_l {A B : Type} (l1 l2 : list (A * B)) :
  functional (l1 ++ l2) → functional l1.
Proof. intros Hf a b b' Hb Hb'. eapply Hf; apply elem_of_app; by left. Qed.

Lemma functional_app_r {A B : Type} (l1 l2 : list (A * B)) :
  functional (l1 ++ l2) → functional l2.
Proof. intros Hf a b b' Hb Hb'. eapply Hf; apply elem_of_app; by right. Qed.

(** Merging the dictionaries of two batches gives the dictionary of the
    batches in a row. *)
Lemma insert_entries_union (es1 es2 : list (Z * option (list Z * MiscAttrs F))) :
  functional (es1 ++ es2) →
  vmd_merge (insert_entries ∅ es1) (insert_entries ∅ es2) =
  insert_entries ∅ (es1 ++ es2).
Proof.
  intros Hfun. apply map_eq. intros src. apply option_eq. intros v.
  unfold vmd_merge. rewrite lookup_union_Some_raw.
  rewrite (insert_entries_empty (es1 ++ es2)) by done.
  rewrite !insert_entries_empty by eauto using functional_app_l, functional_app_r.
  rewrite elem_of_app. split; [tauto|]. intros [Hin|Hin]; [by left|].
  destruct (insert_entries ∅ es1 !! src) as [v'|] eqn:Hl; [|by right].
  left. apply insert_entries_empty in Hl; [|by eapply functional_app_l].
  assert (Some v' = Some v) as [= ->]; [|done].
  eapply Hfun; apply elem_of_app; [by left|by right].
Qed.

Lemma merge_results_foldl (results : list (VolumeMaskDictionary F)) :
  ∀ (d : VolumeMaskDictionary F) (i : nat),
    merge_results (Some d) (S i) results = Ok (Some (foldl vmd_merge d results)).
Proof.
  induction results as [|r results IH]; intros d i; [done|].
  cbn [merge_results foldl Nat.eqb]. apply IH.
Qed.

Lemma foldl_merge_entries (ess : list (list (Z * option (list Z * MiscAttrs F)))) :
  ∀ es1, functional (es1 ++ concat ess) →
    foldl vmd_merge (insert_entries ∅ es1) (insert_entries ∅ <$> ess) =
    insert_entries ∅ (es1 ++ concat ess).
Proof.
  induction ess as [|es2 ess IH]; intros es1 Hfun; simpl.
  { by rewrite app_nil_r. }
  simpl in Hfun. rewrite app_assoc in Hfun |- *.
  rewrite insert_entries_union by (by eapply functional_app_l).
  by apply IH.
Qed.

Lemma blocks_entries {A B C : Type} (f : A → result B) (g : list B → C)
    (bs : list (list A)) :
  mapM (λ b, es ← mapM f b; Ok (g es)) bs =
  (ess ← mapM (mapM f) bs; Ok (g <$> ess)).
Proof.
  induction bs as [|b bs IH]; [done|].
  rewrite !mapM_result_cons, IH. destruct (mapM f b) as [es|]; [|done].
  cbn [mbind result_bind]. by destruct (mapM (mapM f) bs).
Qed.

Lemma mapM_result_concat {A B : Type} (f : A → result B) (bs : list (list A)) :
  mapM f (concat bs) = (ess ← mapM (mapM f) bs; Ok (concat ess)).
Proof.
  induction bs as [|b bs IH]; [done|].
  cbn [concat]. rewrite mapM_result_app, mapM_result_cons, IH.
  destruct (mapM f b) as [es|]; [|done]. cbn [mbind result_bind].
  by destruct (mapM (mapM f) bs).
Qed.

Lemma returned_bind {A B : Type} (r : result (A * B)) :
  (x ← r; Ok x.1) = returned r.
Proof. by destruct r. Qed.

Lemma reduce_mapper_returned (self : VoxelSelector F) (l : list (Z * Z)) :
  returned (_reduce_mapper ∅ self l) =
  (es ← mapM (entry_of self) l; Ok (insert_entries ∅ es)).
Proof.
  rewrite <- (with_optimizer_same self) at 1. by apply reduce_mapper_entries.
Qed.

(** The parallel branch in terms of the entries. *)
Lemma run_blocks_entries (env : Collaborators F) (self : VoxelSelector F)
    (l : list (Z * Z)) (nproc : Z) (c : Z) :
  pprocess_cores env = Some c → 1 < nproc → functional l →
  run_blocks env self l nproc =
  (es ← mapM (entry_of self) l; Ok (Some (insert_entries ∅ es))).
Proof.
  intros Hpp Hn Hfun. unfold run_blocks. rewrite Hpp.
  rewrite (mapM_result_ext _ (λ b, es ← mapM (entry_of self) b;
                                   Ok (insert_entries ∅ es))).
  2:{ intros b. by rewrite returned_bind, reduce_mapper_returned. }
  rewrite blocks_entries.
  rewrite <- (array_split_concat l (Z.to_nat nproc)) at 2 by lia.
  rewrite mapM_result_concat.
  destruct (mapM (mapM (entry_of self)) (array_split l (Z.to_nat nproc)))
    as [ess|] eqn:Hess; [|done].
  cbn [mbind result_bind].
  assert (Hes : mapM (entry_of self) l = Ok (concat ess)).
  { rewrite <- (array_split_concat l (Z.to_nat nproc)) by lia.
    by rewrite mapM_result_concat, Hess. }
  pose proof (entries_functional self l _ Hfun Hes) as Hfun'.
  assert (Hlen : length ess = Z.to_nat nproc).
  { apply mapM_result_length in Hess. rewrite Hess.
    apply array_split_length. lia. }
  destruct ess as [|es1 ess]; [simpl in Hlen; lia|].
  cbn [fmap list_fmap merge_results Nat.eqb].
  rewrite merge_results_foldl. do 2 f_equal.
  by apply foldl_merge_entries.
Qed.

(** A run is determined by the entries of its centers. *)
Lemma voxel_selection_entries (env : Collaborators F) (radius : radius_arg F)
    (nodes : option (list Z)) (distance_metric : string) (nproc : option Z)
    (outside_node_margin : margin F) :
  voxel_selection env radius nodes distance_metric nproc outside_node_margin =
  run_of_entries env radius nodes distance_metric nproc outside_node_margin.
Proof.
  unfold voxel_selection, run_of_entries.
  destruct (VoxelSelector_init _ _ _ _ _) as [self|]; [|done].
  cbn [mbind result_bind].
  change (match nodes with
          | Some nodes0 => nodes0
          | None => Z.of_nat <$> seq 0 (source_nvertices env)
          end) with (centers env nodes).
  destruct (src_trg_of env nodes) as [l|x] eqn:Hl.
  - pose proof (src_trg_of_functional env nodes l Hl) as Hfun.
    unfold src_trg_of in Hl.
    destruct (mapM _ (random_permutation env)) as [srcs|];
      cbn [mbind result_bind] in *; [|done].
    rewrite Hl. cbn [mbind result_bind].
    destruct (resolve_nproc env nproc) as [warnings n].
    assert (Hserial :
      (r ← _reduce_mapper ∅ self l; Ok (Some r.1)) =
      (es ← mapM (entry_of self) l; Ok (Some (insert_entries ∅ es)))).
    { pose proof (reduce_mapper_returned self l) as Hr.
      destruct (_reduce_mapper ∅ self l) as [[d o]|];
        destruct (mapM (entry_of self) l); cbn in *; congruence. }
    destruct (Z.ltb_spec 1 n) as [Hn|Hn]; cbn [andb].
    + destruct (pprocess_cores env) as [c|] eqn:Hpp.
      * rewrite bool_decide_eq_false_2 by done.
        rewrite (run_blocks_entries env self l n c Hpp Hn Hfun).
        by destruct (mapM (entry_of self) l).
      * rewrite bool_decide_eq_true_2 by done.
        unfold run_blocks. by rewrite Hpp.
    + rewrite Hserial. by destruct (mapM (entry_of self) l).
  - unfold src_trg_of in Hl.
    destruct (mapM _ (random_permutation env)) as [srcs|];
      cbn [mbind result_bind] in *; [|congruence].
    by rewrite Hl.
Qed.
End run_entries.

Section driver_outcome.
Context {F : Type} `{FloatCmp F, FloatArith F, NumpyCast F}.

Lemma entry_shape (self : VoxelSelector F) (src : Z)
    (e : option (list Z * MiscAttrs F)) (o : _RadiusOptimizer F) :
  well_formed self = true →
  disc_voxel_indices_and_attributes self src = Ok (e, o) →
  (skips_center self src = true ∧ e = None) ∨
  (skips_center self src = false ∧
   ∃ idxs attrs, e = Some (idxs, attrs) ∧ idxs ≠ [] ∧
     length idxs = length (ma_center_distances attrs) ∧
     length (ma_grey_matter_position attrs) = length (ma_center_distances attrs)).
Proof.
  intros Hwf. unfold disc_voxel_indices_and_attributes.
  destruct (disc_voxel_attributes self src) as [[v o']|] eqn:Hd; [|done].
  cbn [mbind result_bind fst snd].
  destruct (disc_returns_shape self src v o' Hwf Hd)
    as [(Hs & -> & _)|(Hs & va & -> & Hne & [Hl Hg] & _)]; cbn [py_bool negb].
  - intros [= <- <-]. by left.
  - intros [= <- <-]. right. split; [done|].
    eexists _, _. split; [done|]. cbn. split; [|done].
    intros Hnil. apply Hne. apply length_zero_iff_nil.
    rewrite <- Hl, Hnil. done.
Qed.

(** X14. What the attribute mapper hands to the driver for a center: nothing
    for a center that is skipped, and otherwise a non-empty list of voxel
    indices with one distance and one grey-matter position for each. *)
Theorem disc_voxel_indices_and_attributes_shape (self : VoxelSelector F) (src : Z)
    (e : option (list Z * MiscAttrs F)) (o : _RadiusOptimizer F) :
  well_formed self = true →
  disc_voxel_indices_and_attributes self src = Ok (e, o) →
  (skips_center self src = true ∧ e = None) ∨
  (skips_center self src = false ∧
   ∃ idxs attrs, e = Some (idxs, attrs) ∧ idxs ≠ [] ∧
     length idxs = length (ma_center_distances attrs) ∧
     length (ma_grey_matter_position attrs) = length (ma_center_distances attrs)).
Proof. exact (entry_shape self src e o). Qed.

(** X15. [_reduce_mapper] over centers that each occur with one target:
    a center whose mapper gives an entry is bound to that entry, whatever the
    centers before it did to the optimizer; a center that is skipped, and
    every node that is no center of the list, keeps what the dictionary
    held. *)
Theorem reduce_mapper_lookup (d d' : VolumeMaskDictionary F)
    (self self' : VoxelSelector F) (l : list (Z * Z)) :
  functional l →
  _reduce_mapper d self l = Ok (d', self') →
  (∀ src trg, (src, trg) ∈ l →
     ∃ e, center_entry self trg = Ok e ∧
          d' !! src = match e with Some v => Some v | None => d !! src end) ∧
  (∀ src, src ∉ l.*1 → d' !! src = d !! src).
Proof.
  intros Hfun Hr.
  pose proof (reduce_mapper_entries self l d (_optimizer self) eq_refl eq_refl) as He.
  rewrite with_optimizer_same, Hr in He. cbn [returned fst] in He.
  destruct (mapM (entry_of self) l) as [es|] eqn:Hes; [|done].
  cbn [mbind result_bind] in He. injection He as ->.
  pose proof (entries_functional self l es Hfun Hes) as Hfun'.
  pose proof (entries_spec self l es Hes) as Hspec. split.
  - intros src trg Hin.
    pose proof (mapM_result_Forall2 _ _ _ Hes) as HF.
    destruct (Forall2_elem_of_l _ _ _ _ HF Hin) as ([s e] & Hse & Hst).
    rewrite entry_of_pair in Hst.
    destruct (center_entry self trg) as [e'|] eqn:Hce; [|done].
    inversion Hst; subst s e'. exists e. split; [done|].
    by apply insert_entries_lookup.
  - intros src Hnot. apply insert_entries_other. intros Hin. apply Hnot.
    apply list_elem_of_fmap in Hin as ([s e] & -> & Hin).
    apply Hspec in Hin as (trg & Hin & _).
    apply list_elem_of_fmap. by exists (s, trg).
Qed.

Lemma run_returns (env : Collaborators F) (radius : radius_arg F)
    (nodes : option (list Z)) (distance_metric : string) (nproc : option Z)
    (outside_node_margin : margin F) (w : list warning_msg)
    (r : option (VolumeMaskDictionary F)) :
  voxel_selection env radius nodes distance_metric nproc outside_node_margin =
    (w, Ok r) →
  ∃ self l es,
    VoxelSelector_init radius (intermediate_surface env) (node2voxels env)
      distance_metric outside_node_margin = Ok self ∧
    src_trg_of env nodes = Ok l ∧
    mapM (entry_of self) l = Ok es ∧
    w = (resolve_nproc env nproc).1 ∧
    r = Some (insert_entries ∅ es).
Proof.
  rewrite voxel_selection_entries. unfold run_of_entries.
  destruct (VoxelSelector_init _ _ _ _ _) as [self|]; [|done].
  cbn [mbind result_bind].
  destruct (src_trg_of env nodes) as [l|]; [|done]. cbn [mbind result_bind].
  destruct (resolve_nproc env nproc) as [warnings n].
  destruct (_ && _); [done|].
  destruct (mapM (entry_of self) l) as [es|] eqn:Hes; [|done].
  intros [= <- <-]. by exists self, l, es.
Qed.

Lemma run_lookup (env : Collaborators F) (radius : radius_arg F)
    (nodes : option (list Z)) (distance_metric : string) (nproc : option Z)
    (outside_node_margin : margin F) (w : list warning_msg)
    (r : option (VolumeMaskDictionary F)) :
  voxel_selection env radius nodes distance_metric nproc outside_node_margin =
    (w, Ok r) →
  ∃ self d,
    VoxelSelector_init radius (intermediate_surface env) (node2voxels env)
      distance_metric outside_node_margin = Ok self ∧
    r = Some d ∧
    ∀ src v, d !! src = Some v ↔
      ∃ trg, src2intermediate env !! src = Some trg ∧
             (∃ i node, random_permutation env !! i = Some node ∧
                        centers env nodes !! node = Some src) ∧
             center_entry self trg = Ok (Some v).
Proof.
  intros Hrun.
  destruct (run_returns _ _ _ _ _ _ _ _ Hrun) as (self & l & es & Hi & Hl & Hes & _ & ->).
  exists self, (insert_entries ∅ es). split; [done|]. split; [done|].
  intros src v.
  rewrite insert_entries_empty
    by exact (entries_functional self l es (src_trg_of_functional env nodes l Hl) Hes).
  rewrite (entries_spec self l es Hes). split.
  - intros (trg & Hin & Hce). exists trg.
    apply (src_trg_of_spec env nodes l Hl) in Hin as [Ht Hc]. done.
  - intros (trg & Ht & Hc & Hce). exists trg. split; [|done].
    by apply (src_trg_of_spec env nodes l Hl).
Qed.

(** X16. The dictionary of a run that returns: a node is a key exactly when
    it is a center the run visits and the selector finds voxels for it, and
    it is bound to what the selector, as [__init__] left it, gives for the
    center alone. *)
Theorem voxel_selection_lookup (env : Collaborators F) (radius : radius_arg F)
    (nodes : option (list Z)) (distance_metric : string) (nproc : option Z)
    (outside_node_margin : margin F) (w : list warning_msg)
    (r : option (VolumeMaskDictionary F)) :
  voxel_selection env radius nodes distance_metric nproc outside_node_margin =
    (w, Ok r) →
  ∃ self d,
    VoxelSelector_init radius (intermediate_surface env) (node2voxels env)
      distance_metric outside_node_margin = Ok self ∧
    r = Some d ∧
    ∀ src v, d !! src = Some v ↔
      ∃ trg, src2intermediate env !! src = Some trg ∧
             (∃ i node, random_permutation env !! i = Some node ∧
                        centers env nodes !! node = Some src) ∧
             center_entry self trg = Ok (Some v).
Proof. exact (run_lookup env radius nodes distance_metric nproc outside_node_margin w r). Qed.

(** X17. Once [pprocess] can be imported, a run that returns with one
    process returns the same dictionary, with the same warnings, for any
    number of processes: every block of the parallel branch, worked on with
    a selector of its own, returns, and the blocks' dictionaries merge into
    the dictionary of the serial loop. *)
Theorem voxel_selection_any_nproc (env : Collaborators F) (radius : radius_arg F)
    (nodes : option (list Z)) (distance_metric : string) (n : Z)
    (nproc' : option Z) (outside_node_margin : margin F) (c : Z)
    (w : list warning_msg) (r : option (VolumeMaskDictionary F)) :
  pprocess_cores env = Some c →
  n ≤ 1 →
  voxel_selection env radius nodes distance_metric (Some n) outside_node_margin =
    (w, Ok r) →
  voxel_selection env radius nodes distance_metric nproc' outside_node_margin =
    (w, Ok r).
Proof.
  intros Hpp Hn. rewrite !voxel_selection_entries. unfold run_of_entries.
  destruct (VoxelSelector_init _ _ _ _ _) as [self|]; [|done].
  cbn [mbind result_bind].
  destruct (src_trg_of env nodes) as [l|]; [|done]. cbn [mbind result_bind].
  unfold resolve_nproc. rewrite Hpp.
  rewrite bool_decide_eq_false_2 by done.
  destruct nproc'; rewrite !andb_false_r; done.
Qed.

Lemma insert_entries_perm (es es' : list (Z * option (list Z * MiscAttrs F))) :
  functional es → es ≡ₚ es' →
  insert_entries ∅ es = insert_entries ∅ es'.
Proof.
  intros Hfun Hp.
  assert (Hfun' : functional es').
  { intros a b b' Hb Hb'. rewrite <- Hp in Hb, Hb'. by eapply Hfun. }
  apply map_eq. intros src. apply option_eq. intros v.
  rewrite !insert_entries_empty by done. by rewrite Hp.
Qed.

Lemma src_trg_of_perm (env : Collaborators F) (nodes : option (list Z))
    (p : list nat) (l : list (Z * Z)) :
  random_permutation env ≡ₚ p →
  src_trg_of env nodes = Ok l →
  ∃ l', src_trg_of (with_permutation env p) nodes = Ok l' ∧ l ≡ₚ l'.
Proof.
  intros Hp. unfold src_trg_of.
  change (centers (with_permutation env p) nodes) with (centers env nodes).
  change (src2intermediate (with_permutation env p)) with (src2intermediate env).
  change (random_permutation (with_permutation env p)) with p.
  destruct (mapM _ (random_permutation env)) as [srcs|] eqn:Hsrcs; [|done].
  cbn [mbind result_bind]. intros Hl.
  destruct (mapM_result_perm _ _ _ Hp _ Hsrcs) as (srcs' & -> & Hp').
  cbn [mbind result_bind]. by apply (mapM_result_perm _ _ _ Hp').
Qed.

(** X18. The order in which the centers are visited does not show in what a
    run returns: with the visiting order rearranged, the run returns the same
    dictionary with the same warnings, although the radius optimizer carries
    what it learnt from one center to the next. *)
Theorem voxel_selection_any_order (env : Collaborators F) (radius : radius_arg F)
    (nodes : option (list Z)) (distance_metric : string) (nproc : option Z)
    (outside_node_margin : margin F) (p : list nat) (w : list warning_msg)
    (r : option (VolumeMaskDictionary F)) :
  random_permutation env ≡ₚ p →
  voxel_selection env radius nodes distance_metric nproc outside_node_margin =
    (w, Ok r) →
  voxel_selection (with_permutation env p) radius nodes distance_metric nproc
    outside_node_margin = (w, Ok r).
Proof.
  intros Hp Hrun. pose proof Hrun as Hrun'.
  destruct (run_returns _ _ _ _ _ _ _ _ Hrun) as (self & l & es & Hi & Hl & Hes & -> & ->).
  destruct (src_trg_of_perm env nodes p l Hp Hl) as (l' & Hl' & Hpl).
  destruct (mapM_result_perm _ _ _ Hpl _ Hes) as (es' & Hes' & Hpe).
  rewrite voxel_selection_entries in Hrun' |- *. unfold run_of_entries in *.
  change (intermediate_surface (with_permutation env p)) with (intermediate_surface env).
  change (node2voxels (with_permutation env p)) with (node2voxels env).
  change (resolve_nproc (with_permutation env p) nproc) with (resolve_nproc env nproc).
  change (pprocess_cores (with_permutation env p)) with (pprocess_cores env).
  rewrite Hi in Hrun' |- *. cbn [mbind result_bind] in *.
  rewrite Hl in Hrun'. rewrite Hl'. cbn [mbind result_bind] in *.
  destruct (resolve_nproc env nproc) as [warnings n].
  destruct (_ && _); [done|].
  rewrite Hes'. cbn [fst].
  rewrite (insert_entries_perm es es'); [done| |done].
  exact (entries_functional self l es (src_trg_of_functional env nodes l Hl) Hes).
Qed.

(** X19. Every entry of the dictionary a run returns has at least one voxel,
    and one distance and one grey-matter position for each of its voxels. *)
Theorem voxel_selection_entries_nonempty (env : Collaborators F)
    (radius : radius_arg F) (nodes : option (list Z)) (distance_metric : string)
    (nproc : option Z) (outside_node_margin : margin F) (w : list warning_msg)
    (d : VolumeMaskDictionary F) (src : Z) (idxs : list Z) (attrs : MiscAttrs F) :
  voxel_selection env radius nodes distance_metric nproc outside_node_margin =
    (w, Ok (Some d)) →
  d !! src = Some (idxs, attrs) →
  idxs ≠ [] ∧
  length idxs = length (ma_center_distances attrs) ∧
  length (ma_grey_matter_position attrs) = length (ma_center_distances attrs).
Proof.
  intros Hrun Hd.
  destruct (run_lookup _ _ _ _ _ _ _ _ Hrun) as (self & d' & Hi & [= <-] & Hlook).
  destruct (proj1 (Hlook src (idxs, attrs)) Hd) as (trg & _ & _ & Hce).
  unfold center_entry in Hce.
  destruct (disc_voxel_indices_and_attributes self trg) as [[e o]|] eqn:Hdisc; [|done].
  cbn in Hce. assert (He : e = Some (idxs, attrs)) by congruence. subst e.
  destruct (entry_shape self trg _ o
              (VoxelSelector_init_well_formed _ _ _ _ _ _ Hi) Hdisc)
    as [[_ ?]|(_ & idxs' & attrs' & [= <- <-] & Hshape)]; done.
Qed.
End driver_outcome.

(** ** The further properties on concrete inputs *)

(** Whole chunks on the whole-number distances 1,1,2,2,2,3 with count 3:
    the cut falls between the chunk of 1 and the chunk of 2. *)
Lemma select_approx_whole_chunks_witness :
  let vp := mkVoxProps [10; 11; 12; 13; 14; 15] [1; 1; 2; 2; 2; 3]
              [0; 0; 0; 0; 0; 0] in
  ∃ cutpos : nat,
    mkVoxProps [10; 11] [1; 1] [0; 0] = slice_to cutpos vp ∧
    (cutpos ≤ length (center_distances vp))%nat ∧
    (cutpos = 0%nat ∨ cutpos = length (center_distances vp) ∨
     center_distances vp !! (cutpos - 1)%nat ≠ center_distances vp !! cutpos).
Proof.
  exact (select_approx_whole_chunks
           (mkVoxProps [10; 11; 12; 13; 14; 15] [1; 1; 2; 2; 2; 3]
              [0; 0; 0; 0; 0; 0])
           (mkVoxProps [10; 11] [1; 1] [0; 0]) 3 eq_refl).
Defined.

(** Five voxels at distance 5 and count 1: the one chunk runs to index 4,
    beyond twice the count, and nothing is selected. *)
Lemma select_approx_empty_iff_witness :
  let vp := mkVoxProps [10; 11; 12; 13; 14] [5; 5; 5; 5; 5] [0; 0; 0; 0; 0] in
  ∃ out, _select_approx vp (Some 1) = Ok (Some out) ∧
         (center_distances out = [] ↔ 2 * 1 < Z.of_nat 4).
Proof.
  apply (select_approx_empty_iff
           (mkVoxProps [10; 11; 12; 13; 14] [5; 5; 5; 5; 5] [0; 0; 0; 0; 0]) 1 4).
  - simpl. lia.
  - split; [simpl; lia|]. split; [|split; simpl; lia].
    intros j Hj. destruct j as [|[|[|[|[|j]]]]]; [reflexivity..|lia].
Defined.

(** The distances 1,1,2,2,2,3 with count 3: the chunk of 2 holds three
    voxels, and two voxels are selected. *)
Lemma select_approx_half_chunk_witness :
  let vp := mkVoxProps [10; 11; 12; 13; 14; 15] [1; 1; 2; 2; 2; 3]
              [0; 0; 0; 0; 0; 0] in
  ∃ firstpos lastpos cutpos : nat,
    _select_approx vp (Some 3) = Ok (Some (slice_to cutpos vp)) ∧
    length (center_distances (slice_to cutpos vp)) = cutpos ∧
    is_chunk (center_distances vp) firstpos lastpos ∧
    Z.of_nat firstpos < 3 ≤ Z.of_nat lastpos + 1 ∧
    2 * Z.abs (Z.of_nat cutpos - 3) ≤ Z.of_nat (lastpos - firstpos + 1) + 1.
Proof.
  apply (select_approx_half_chunk
           (mkVoxProps [10; 11; 12; 13; 14; 15] [1; 1; 2; 2; 2; 3]
              [0; 0; 0; 0; 0; 0]) 3).
  simpl. lia.
Defined.


(** The aggregation in binary64 for node 1 at distance 0, which encloses
    voxel 7. *)
Lemma nodes2voxel_attributes_voxels_witness :
  let n2d : gmap Z float := {[ 1 := 0%float ]} in
  ∃ va : VoxProps float,
    nodes2voxel_attributes n2d Inputs.n2v_node1 py_min = Ok va ∧
    parallel_arrays va ∧
    NoDup (linear_voxel_indices va) ∧
    (∀ vx, vx ∈ linear_voxel_indices va ↔
       ∃ dp, contributes n2d Inputs.n2v_node1 vx dp) ∧
    (linear_voxel_indices va = [] ↔
       ∀ vx dp, ¬ contributes n2d Inputs.n2v_node1 vx dp).
Proof.
  apply (nodes2voxel_attributes_voxels ({[ 1 := 0%float ]} : gmap Z float)
           Inputs.n2v_node1).
  - intros vx Hvx. cbn. unfold Binary64.to_int32.
    rewrite Z.mod_small by lia. lia.
  - intros vx dp (nd & vps & _ & Hv & Hvx). unfold Inputs.n2v_node1 in Hv.
    apply lookup_singleton_Some in Hv as [_ Hv]. inversion Hv; subst vps.
    apply lookup_singleton_Some in Hvx as [<- _]. lia.
Defined.

(** Count 1 at node 1 of the two-node surface, which encloses voxel 7. *)
Lemma disc_voxel_attributes_returns_witness :
  let self := Inputs.built (RadiusInt 1) 10%float MarginNone in
  ∃ v o,
    disc_voxel_attributes self 1 = Ok (v, o) ∧
    ((skips_center self 1 = true ∧ v = SelEmptyList ∧ o = _optimizer self) ∨
     (skips_center self 1 = false ∧
      ∃ va, v = SelDict va ∧ center_distances va ≠ [] ∧ parallel_arrays va ∧
            _initradius o = _initradius (_optimizer self) ∧
            _initmult o = _initmult (_optimizer self))).
Proof.
  eexists _, _. split; [vm_compute; reflexivity|].
  apply (disc_voxel_attributes_returns
           (Inputs.built (RadiusInt 1) 10%float MarginNone) 1);
    vm_compute; reflexivity.
Defined.

(** Count 4 at node 1 of the two-node surface, with one voxel to find. *)
Lemma disc_voxel_attributes_raises_witness :
  TypeError "'str' object is not callable" = IndexError "index out of range" ∨
  TypeError "'str' object is not callable" =
    TypeError "'str' object is not callable".
Proof.
  apply (disc_voxel_attributes_raises
           (Inputs.built (RadiusInt 4) 10%float MarginNone) 1);
    vm_compute; reflexivity.
Defined.

(** Radius 20.0 at node 1 of the two-node surface. *)
Lemma fixed_radius_single_trial_witness :
  let self := Inputs.built (RadiusFloat 20%float) 10%float MarginNone in
  ∃ va,
    nodes2voxel_attributes
      (circlearound_n2d (_surf self) 1 (_initradius (_optimizer self))
         (_distance_metric self)) (_n2v self) py_min = Ok va ∧
    parallel_arrays va ∧
    disc_voxel_attributes self 1 =
      match center_distances va with
      | [] => Raise (IndexError "index out of range")
      | _ :: _ => Ok (SelDict va, (get_start (_optimizer self)).2)
      end.
Proof.
  exact (fixed_radius_single_trial
           (Inputs.built (RadiusFloat 20%float) 10%float MarginNone) 1
           eq_refl eq_refl).
Defined.

(** Count 1 at node 0, outside the volume and admitted by margin [True],
    node 1 being 2 away: the trial at the initial radius 1.501 finds no
    voxel, the next one, at 2.2515, finds voxel 7. *)
Lemma first_sufficient_trial_returned_witness :
  let self := Inputs.built (RadiusInt 1) 2%float MarginTrue in
  let va := mkVoxProps [7] [Binary64.to_float32 2%float] [0.5%float] in
  disc_voxel_attributes self 0 =
    Ok (SelDict va,
        mkRadiusOptimizer (_initradius (_optimizer self))
          (_initmult (_optimizer self)) (Some (trial_radius self 1))
          (Some (Z.of_nat 1))).
Proof.
  apply (first_sufficient_trial_returned
           (Inputs.built (RadiusInt 1) 2%float MarginTrue) 0 1
           (mkVoxProps [7] [Binary64.to_float32 2%float] [0.5%float])).
  - vm_compute; reflexivity.
  - vm_compute; lia.
  - intros k Hk. destruct k as [|k]; [vm_compute; reflexivity|lia].
  - vm_compute; reflexivity.
  - discriminate.
Defined.

(** Node 0 of the two-node surface, outside the volume, with an infinite
    margin: node 1 has a table entry, so the center is searched. *)
Lemma infinite_margin_policy_witness :
  disc_voxel_attributes
    (Inputs.built (RadiusInt 1) 10%float (MarginFloat infinity)) 0 =
  grow_and_finish
    (Inputs.built (RadiusInt 1) 10%float (MarginFloat infinity)) 0.
Proof.
  refine (proj1 (infinite_margin_policy
            (Inputs.built (RadiusInt 1) 10%float (MarginFloat infinity)) 0
            infinity eq_refl eq_refl eq_refl) _).
  exists 1. reflexivity.
Defined.

(** The selector for count 1 with an optimizer that was left at radius 100
    after 7 calls of [get_next]. *)
Lemma disc_voxel_attributes_any_history_witness :
  let self := Inputs.built (RadiusInt 1) 10%float MarginNone in
  let o := mkRadiusOptimizer (_initradius (_optimizer self))
             (_initmult (_optimizer self)) (Some 100%float) (Some 7) in
  returned (disc_voxel_attributes (with_optimizer self o) 1) =
  returned (disc_voxel_attributes self 1).
Proof.
  exact (disc_voxel_attributes_any_history
           (Inputs.built (RadiusInt 1) 10%float MarginNone)
           (mkRadiusOptimizer
              (_initradius (_optimizer (Inputs.built (RadiusInt 1) 10%float MarginNone)))
              (_initmult (_optimizer (Inputs.built (RadiusInt 1) 10%float MarginNone)))
              (Some 100%float) (Some 7))
           1 eq_refl eq_refl).
Defined.

(** The mapper for count 1 at node 1 of the two-node surface. *)
Lemma disc_voxel_indices_and_attributes_shape_witness :
  let self := Inputs.built (RadiusInt 1) 10%float MarginNone in
  ∃ e o,
    disc_voxel_indices_and_attributes self 1 = Ok (e, o) ∧
    ((skips_center self 1 = true ∧ e = None) ∨
     (skips_center self 1 = false ∧
      ∃ idxs attrs, e = Some (idxs, attrs) ∧ idxs ≠ [] ∧
        length idxs = length (ma_center_distances attrs) ∧
        length (ma_grey_matter_position attrs) =
          length (ma_center_distances attrs))).
Proof.
  eexists _, _. split; [vm_compute; reflexivity|].
  eapply (disc_voxel_indices_and_attributes_shape
            (Inputs.built (RadiusInt 1) 10%float MarginNone) 1);
    vm_compute; reflexivity.
Defined.

(** [_reduce_mapper] over the centers 1 and 0 of the two-node surface, from
    the empty dictionary. *)
Lemma reduce_mapper_lookup_witness :
  let self := Inputs.built (RadiusInt 1) 10%float MarginNone in
  let l := [(1, 1); (0, 0)] in
  let d : VolumeMaskDictionary float := ∅ in
  ∃ (d' : VolumeMaskDictionary float) self',
    _reduce_mapper d self l = Ok (d', self') ∧
    (∀ src trg, (src, trg) ∈ l →
       ∃ e, center_entry self trg = Ok e ∧
            d' !! src = match e with Some v => Some v | None => d !! src end) ∧
    (∀ src, src ∉ l.*1 → d' !! src = d !! src).
Proof.
  eexists _, _. split; [vm_compute; reflexivity|].
  eapply (reduce_mapper_lookup ∅ _
            (Inputs.built (RadiusInt 1) 10%float MarginNone) _ [(1, 1); (0, 0)]).
  - intros a b b' Hb Hb'.
    rewrite !elem_of_cons, elem_of_nil in Hb, Hb'. intuition congruence.
  - vm_compute; reflexivity.
Defined.

(** A serial run for count 1 over both nodes of the two-node surface. *)
Lemma voxel_selection_lookup_witness :
  let env := Inputs.two_node_run Inputs.n2v_node1 in
  ∃ w r,
    voxel_selection env (RadiusInt 1) None "dijkstra" (Some 1) MarginNone =
      (w, Ok r) ∧
    ∃ self d,
      VoxelSelector_init (RadiusInt 1) (intermediate_surface env) (node2voxels env)
        "dijkstra" MarginNone = Ok self ∧
      r = Some d ∧
      ∀ src v, d !! src = Some v ↔
        ∃ trg, src2intermediate env !! src = Some trg ∧
               (∃ i node, random_permutation env !! i = Some node ∧
                          centers env None !! node = Some src) ∧
               center_entry self trg = Ok (Some v).
Proof.
  eexists _, _. split; [vm_compute; reflexivity|].
  eapply (voxel_selection_lookup (Inputs.two_node_run Inputs.n2v_node1)
            (RadiusInt 1) None "dijkstra" (Some 1) MarginNone).
  vm_compute; reflexivity.
Defined.

(** The two-node run with [pprocess] reporting four cores: one process and
    two processes. *)
Lemma voxel_selection_any_nproc_witness :
  let env := mkCollaborators (Inputs.two_nodes 10%float) Inputs.n2v_node1 2
               (<[0 := 0]> {[ 1 := 1 ]}) [1; 0]%nat (Some 4) in
  ∃ w r,
    voxel_selection env (RadiusInt 1) None "dijkstra" (Some 1) MarginNone =
      (w, Ok r) ∧
    voxel_selection env (RadiusInt 1) None "dijkstra" (Some 2) MarginNone =
      (w, Ok r).
Proof.
  eexists _, _. split; [vm_compute; reflexivity|].
  apply (voxel_selection_any_nproc
           (mkCollaborators (Inputs.two_nodes 10%float) Inputs.n2v_node1 2
              (<[0 := 0]> {[ 1 := 1 ]}) [1; 0]%nat (Some 4))
           (RadiusInt 1) None "dijkstra" 1 (Some 2) MarginNone 4 _ _ eq_refl).
  - lia.
  - vm_compute; reflexivity.
Defined.

(** The two-node run visiting node 0 before node 1. *)
Lemma voxel_selection_any_order_witness :
  let env := Inputs.two_node_run Inputs.n2v_node1 in
  ∃ w r,
    voxel_selection env (RadiusInt 1) None "dijkstra" (Some 1) MarginNone =
      (w, Ok r) ∧
    voxel_selection (with_permutation env [0; 1]%nat) (RadiusInt 1) None
      "dijkstra" (Some 1) MarginNone = (w, Ok r).
Proof.
  eexists _, _. split; [vm_compute; reflexivity|].
  apply (voxel_selection_any_order (Inputs.two_node_run Inputs.n2v_node1)
           (RadiusInt 1) None "dijkstra" (Some 1) MarginNone [0; 1]%nat).
  - apply perm_swap.
  - vm_compute; reflexivity.
Defined.

(** The entry of node 1 in the two-node run. *)
Lemma voxel_selection_entries_nonempty_witness :
  let env := Inputs.two_node_run Inputs.n2v_node1 in
  ∃ w d idxs attrs,
    voxel_selection env (RadiusInt 1) None "dijkstra" (Some 1) MarginNone =
      (w, Ok (Some d)) ∧
    d !! 1 = Some (idxs, attrs) ∧
    idxs ≠ [] ∧
    length idxs = length (ma_center_distances attrs) ∧
    length (ma_grey_matter_position attrs) = length (ma_center_distances attrs).
Proof.
  eexists _, _, _, _. split; [vm_compute; reflexivity|].
  split; [vm_compute; reflexivity|].
  eapply (voxel_selection_entries_nonempty (Inputs.two_node_run Inputs.n2v_node1)
            (RadiusInt 1) None "dijkstra" (Some 1) MarginNone _ _ 1);
    vm_compute; reflexivity.
Defined.
